(** * Address-book assistant: a shallow embedding of [main.py]

    The development follows the layers of the program: field validators
    ([Phone], [Birthday]), [Record], [AddressBook], and the command layer
    with its [input_error] decorator.

    Conventions of the embedding.
    - A Python [str] is a [string]; one [ascii] stands for one code point
      of the range U+0000..U+00FF, so [String.length] is Python's [len].
      The texts of the development are the texts of that range: the
      character classes of the library ([str.isdigit], [str.isspace],
      [str.lower], the pattern [\d], [int]) are given on it, and a
      statement about every text is a statement about every text of that
      range.
    - A raised exception is a value of [exn]; a call that may raise
      returns an [outcome].
    - A method that mutates [self] is a state transformer on the record;
      the state reached at the raise point is kept when it raises.
    - [datetime.today()] is an explicit argument [today]. *)

From Stdlib Require Import ZArith List String Ascii Bool Lia.
Import ListNotations.

Local Open Scope string_scope.
Local Open Scope Z_scope.

(** ** Exceptions and outcomes *)

Inductive exn : Type :=
| KeyError (msg : string)
| ValueError (msg : string)
| IndexError (msg : string)
| OverflowError (msg : string).

Inductive outcome (A : Type) : Type :=
| Ok (a : A)
| Raise (e : exn).

Arguments Ok {A} a.
Arguments Raise {A} e.

(** Code that reads and writes a state [S] and may raise. *)
Definition M (S A : Type) : Type := S -> outcome A * S.

Definition ret {S A} (a : A) : M S A := fun s => (Ok a, s).

Definition raise {S A} (e : exn) : M S A := fun s => (Raise e, s).

Definition bind {S A B} (m : M S A) (k : A -> M S B) : M S B :=
  fun s =>
    match m s with
    | (Ok a, s') => k a s'
    | (Raise e, s') => (Raise e, s')
    end.

Definition get {S} : M S S := fun s => (Ok s, s).

Definition put {S} (s : S) : M S unit := fun _ => (Ok tt, s).

(** A call into code that cannot touch the state. *)
Definition lift {S A} (o : outcome A) : M S A := fun s => (o, s).

(** [try: m  except <kind> as e: h e]; [h] answers [None] for the
    exceptions the clause does not catch. *)
Definition try_except {S A} (m : M S A) (h : exn -> option (M S A)) : M S A :=
  fun s =>
    match m s with
    | (Ok a, s') => (Ok a, s')
    | (Raise e, s') =>
        match h e with
        | Some handler => handler s'
        | None => (Raise e, s')
        end
    end.

Declare Scope py_scope.
Delimit Scope py_scope with py.
Notation "x <- m ;; k" := (bind m (fun x => k))
  (at level 61, m at next level, right associativity) : py_scope.
Notation "' pat <- m ;; k" := (bind m (fun x => match x with pat => k end))
  (at level 61, pat pattern, m at next level, right associativity) : py_scope.
Notation "m ;;; k" := (bind m (fun _ => k))
  (at level 61, right associativity) : py_scope.
Local Open Scope py_scope.

(** ** Strings *)

Definition code (c : ascii) : Z := Z.of_N (N_of_ascii c).

(** [sep.join(parts)]. *)
Fixpoint join (sep : string) (parts : list string) : string :=
  match parts with
  | [] => ""
  | [p] => p
  | p :: rest => p ++ sep ++ join sep rest
  end.

Definition newline : string := String "010"%char "".

(** [str.isdigit] on one character: Numeric_Type Digit or Decimal.  Below
    U+0100 these are the ASCII digits and the superscripts U+00B2, U+00B3
    and U+00B9. *)
Definition isdigit_char (c : ascii) : bool :=
  ((48 <=? code c) && (code c <=? 57))
  || (code c =? 178) || (code c =? 179) || (code c =? 185).

Fixpoint all_chars (p : ascii -> bool) (s : string) : bool :=
  match s with
  | EmptyString => true
  | String c s' => p c && all_chars p s'
  end.

(** [s.isdigit()]: every character is a digit and there is at least one. *)
Definition isdigit (s : string) : bool :=
  match s with
  | EmptyString => false
  | _ => all_chars isdigit_char s
  end.

Definition len (s : string) : Z := Z.of_nat (String.length s).

(** ** Field validators *)

(** [Phone.__init__]; a [Phone] object is represented by its [value]. *)
Definition Phone_init (value : string) : outcome string :=
  if (len value =? 10) && isdigit value
  then Ok value
  else Raise (ValueError "Phone number must be 10 digits long.").

(** ** The [datetime] library

    The part of Python's [datetime] module the program calls, after the
    reference implementation: proleptic Gregorian ordinals ([_ymd2ord],
    [_ord2ymd]), the checked constructor, [replace], comparison,
    subtraction, addition of whole days, [weekday], [strftime] and
    [strptime] for the one format the program uses, ["%d.%m.%Y"]. *)

Module datetime.

Definition MINYEAR : Z := 1.
Definition MAXYEAR : Z := 9999.
Definition MAXORDINAL : Z := 3652059.

Definition DAYS_IN_MONTH : list Z :=
  [-1; 31; 28; 31; 30; 31; 30; 31; 31; 30; 31; 30; 31].

Definition DAYS_BEFORE_MONTH : list Z :=
  [-1; 0; 31; 59; 90; 120; 151; 181; 212; 243; 273; 304; 334].

Definition index (l : list Z) (i : Z) : Z := nth (Z.to_nat i) l 0.

Definition is_leap (year : Z) : bool :=
  (year mod 4 =? 0) && (negb (year mod 100 =? 0) || (year mod 400 =? 0)).

Definition days_before_year (year : Z) : Z :=
  let y := year - 1 in
  y * 365 + y / 4 - y / 100 + y / 400.

Definition days_in_month (year month : Z) : Z :=
  if (month =? 2) && is_leap year then 29 else index DAYS_IN_MONTH month.

Definition days_before_month (year month : Z) : Z :=
  index DAYS_BEFORE_MONTH month
  + (if (month >? 2) && is_leap year then 1 else 0).

Definition ymd2ord (year month day : Z) : Z :=
  days_before_year year + days_before_month year month + day.

Definition DI400Y : Z := Eval cbv in days_before_year 401.
Definition DI100Y : Z := Eval cbv in days_before_year 101.
Definition DI4Y : Z := Eval cbv in days_before_year 5.

Definition ord2ymd (n : Z) : Z * Z * Z :=
  let n := n - 1 in
  let n400 := n / DI400Y in
  let n := n mod DI400Y in
  let year := n400 * 400 + 1 in
  let n100 := n / DI100Y in
  let n := n mod DI100Y in
  let n4 := n / DI4Y in
  let n := n mod DI4Y in
  let n1 := n / 365 in
  let n := n mod 365 in
  let year := year + (n100 * 100 + n4 * 4 + n1) in
  if (n1 =? 4) || (n100 =? 4) then (year - 1, 12, 31)
  else
    let leapyear := (n1 =? 3) && (negb (n4 =? 24) || (n100 =? 3)) in
    let month := Z.shiftr (n + 50) 5 in
    let preceding :=
      index DAYS_BEFORE_MONTH month
      + (if (month >? 2) && leapyear then 1 else 0) in
    if preceding >? n
    then
      let month := month - 1 in
      let preceding :=
        preceding
        - (index DAYS_IN_MONTH month
           + (if (month =? 2) && leapyear then 1 else 0)) in
      (year, month, n - preceding + 1)
    else (year, month, n - preceding + 1).

Record date : Type := mkdate { year : Z; month : Z; day : Z }.

(** [date(year, month, day)] with [_check_date_fields]. *)
Definition date_new (y m d : Z) : outcome date :=
  if negb ((MINYEAR <=? y) && (y <=? MAXYEAR))
  then Raise (ValueError "year must be in 1..9999")
  else if negb ((1 <=? m) && (m <=? 12))
  then Raise (ValueError "month must be in 1..12")
  else if negb ((1 <=? d) && (d <=? days_in_month y m))
  then Raise (ValueError "day is out of range for month")
  else Ok (mkdate y m d).

(** [self.replace(year=y)]. *)
Definition replace_year (self : date) (y : Z) : outcome date :=
  date_new y (month self) (day self).

Definition toordinal (self : date) : Z :=
  ymd2ord (year self) (month self) (day self).

Definition fromordinal (n : Z) : date :=
  let '(y, m, d) := ord2ymd n in mkdate y m d.

(** [self < other]: the tuples (year, month, day) compared. *)
Definition lt (self other : date) : bool :=
  (year self <? year other)
  || ((year self =? year other)
      && ((month self <? month other)
          || ((month self =? month other) && (day self <? day other)))).

(** [(self - other).days]. *)
Definition sub_days (self other : date) : Z :=
  toordinal self - toordinal other.

(** [self + timedelta(days=n)]. *)
Definition add_days (self : date) (n : Z) : outcome date :=
  let o := toordinal self + n in
  if (0 <? o) && (o <=? MAXORDINAL)
  then Ok (fromordinal o)
  else Raise (OverflowError "date value out of range").

(** Monday is 0, Sunday is 6. *)
Definition weekday (self : date) : Z := (toordinal self + 6) mod 7.

(** *** Formatting *)

Definition digit_char (n : Z) : ascii := ascii_of_N (Z.to_N (48 + n)).

Definition two_digits (n : Z) : string :=
  String (digit_char (n / 10 mod 10)) (String (digit_char (n mod 10)) "").

Definition four_digits (n : Z) : string :=
  String (digit_char (n / 1000 mod 10))
    (String (digit_char (n / 100 mod 10)) (two_digits n)).

(** [self.strftime("%d.%m.%Y")]; the year is printed with four digits,
    which is what every C library prints from the year 1000 on (below it
    the padding of [%Y] is the C library's choice). *)
Definition strftime_dmY (self : date) : string :=
  two_digits (day self) ++ "." ++ two_digits (month self) ++ "."
  ++ four_digits (year self).

(** *** Parsing

    [_strptime] turns the format into a regular expression, one group per
    directive, matches it at the start of the text with ordered
    alternatives and backtracking, and rejects a match that does not reach
    the end of the text. *)

Definition in_range (lo hi : ascii) (c : ascii) : bool :=
  (code lo <=? code c) && (code c <=? code hi).

(** [\d] on a text pattern: the characters of the category of decimal
    digits.  In the range U+0000..U+00FF these are the ASCII digits (the
    superscripts U+00B2, U+00B3, U+00B9 are not in the category); beyond
    the range the library's [\d] takes the decimal digits of other
    scripts too, which no text of the development holds. *)
Definition re_digit : ascii -> bool := in_range "0" "9".

Definition re_lit (c : ascii) : ascii -> bool := fun c' => Ascii.eqb c c'.

(** An alternative is a sequence of character classes. *)
Definition alternative : Type := list (ascii -> bool).

Inductive item : Type :=
| Group (alts : list alternative)
| Lit (c : ascii).

(** [%d]: [3[0-1]|[1-2]\d|0[1-9]|[1-9]| [1-9]]. *)
Definition re_d : list alternative :=
  [ [re_lit "3"; in_range "0" "1"];
    [in_range "1" "2"; re_digit];
    [re_lit "0"; in_range "1" "9"];
    [in_range "1" "9"];
    [re_lit " "; in_range "1" "9"] ].

(** [%m]: [1[0-2]|0[1-9]|[1-9]]. *)
Definition re_m : list alternative :=
  [ [re_lit "1"; in_range "0" "2"];
    [re_lit "0"; in_range "1" "9"];
    [in_range "1" "9"] ].

(** [%Y]: [\d\d\d\d]. *)
Definition re_Y : list alternative :=
  [ [re_digit; re_digit; re_digit; re_digit] ].

(** The expression compiled from ["%d.%m.%Y"]. *)
Definition format_dmY : list item :=
  [Group re_d; Lit "."; Group re_m; Lit "."; Group re_Y].

(** One alternative against a prefix of the text: the text captured and
    the text left. *)
Fixpoint match_alt (alt : alternative) (s : string) : option (string * string) :=
  match alt with
  | [] => Some ("", s)
  | p :: alt' =>
      match s with
      | String c s' =>
          if p c then
            match match_alt alt' s' with
            | Some (cap, rest) => Some (String c cap, rest)
            | None => None
            end
          else None
      | EmptyString => None
      end
  end.

(** A group: the alternatives in order; an alternative that matches is
    kept only if the rest of the expression [k] matches what follows. *)
Fixpoint match_group (k : string -> option (list string * string))
    (alts : list alternative) (s : string) : option (list string * string) :=
  match alts with
  | [] => None
  | a :: alts' =>
      match match_alt a s with
      | Some (cap, rest) =>
          match k rest with
          | Some (caps, unread) => Some (cap :: caps, unread)
          | None => match_group k alts' s
          end
      | None => match_group k alts' s
      end
  end.

(** The items in sequence: the captured groups and the text not read. *)
Fixpoint match_items (items : list item) (s : string)
  : option (list string * string) :=
  match items with
  | [] => Some ([], s)
  | Lit c :: items' =>
      match s with
      | String c' s' => if Ascii.eqb c c' then match_items items' s' else None
      | EmptyString => None
      end
  | Group alts :: items' => match_group (match_items items') alts s
  end.

(** [int(text)] on the texts a directive can capture: blanks around the
    number are dropped, then decimal digits are read.  In the range
    U+0000..U+00FF the decimal digits are the ASCII ones, as for [\d]. *)
Fixpoint int_digits (acc : Z) (s : string) : option Z :=
  match s with
  | EmptyString => Some acc
  | String c s' =>
      if re_digit c then int_digits (acc * 10 + (code c - 48)) s' else None
  end.

Fixpoint lstrip (s : string) : string :=
  match s with
  | String c s' => if Ascii.eqb c " " then lstrip s' else s
  | EmptyString => s
  end.

Definition int (s : string) : outcome Z :=
  match lstrip s with
  | EmptyString => Raise (ValueError "invalid literal for int() with base 10")
  | t =>
      match int_digits 0 t with
      | Some n => Ok n
      | None => Raise (ValueError "invalid literal for int() with base 10")
      end
  end.

(** [datetime.strptime(data_string, "%d.%m.%Y")], read as a date: the
    format has no time directive. *)
Definition strptime_dmY (data_string : string) : outcome date :=
  match match_items format_dmY data_string with
  | None => Raise (ValueError "time data does not match format")
  | Some (groups, unread) =>
      if negb (unread =? "")%string
      then Raise (ValueError "unconverted data remains")
      else
        match groups with
        | [d; m; Y] =>
            match int d, int m, int Y with
            | Ok dd, Ok mm, Ok yy => date_new yy mm dd
            | Raise e, _, _ => Raise e
            | _, Raise e, _ => Raise e
            | _, _, Raise e => Raise e
            end
        | _ => Raise (ValueError "time data does not match format")
        end
  end.

End datetime.

(** [Birthday.__init__]; the object keeps the text, [to_datetime] parses
    it again. *)
Definition Birthday_init (value : string) : outcome string :=
  match datetime.strptime_dmY value with
  | Ok _ => Ok value
  | Raise (ValueError _) => Raise (ValueError "Invalid date format. Use DD.MM.YYYY")
  | Raise e => Raise e
  end.

Definition Birthday_to_datetime (value : string) : outcome datetime.date :=
  datetime.strptime_dmY value.

(** ** Record *)

Record record : Type := mkRecord {
  name : string;
  phones : list string;
  birthday : option string
}.

Definition set_phones (self : record) (l : list string) : record :=
  mkRecord (name self) l (birthday self).

Definition set_birthday (self : record) (b : option string) : record :=
  mkRecord (name self) (phones self) b.

Definition Record_init (name : string) : record := mkRecord name [] None.

(** [find_phone]: the first phone whose value is [phone_number]. *)
Definition Record_find_phone (phone_number : string) (self : record)
  : option string :=
  find (fun phone => (phone =? phone_number)%string) (phones self).

Definition Record_add_phone (phone : string) : M record unit :=
  self <- get ;;
  match Record_find_phone phone self with
  | Some _ =>
      raise (ValueError ("Phone number '" ++ phone ++ "' already exists."))
  | None =>
      p <- lift (Phone_init phone) ;;
      put (set_phones self (phones self ++ [p]))
  end.

(** [list.remove]: the first occurrence goes.  The object [find_phone]
    returned is the first one with its value, so removing by value is
    removing that object. *)
Fixpoint list_remove (x : string) (l : list string) : list string :=
  match l with
  | [] => []
  | y :: l' => if (y =? x)%string then l' else y :: list_remove x l'
  end.

Definition Record_remove_phone (phone_number : string) : M record unit :=
  self <- get ;;
  match Record_find_phone phone_number self with
  | None =>
      raise (ValueError ("Phone number '" ++ phone_number ++ "' not found."))
  | Some phone => put (set_phones self (list_remove phone (phones self)))
  end.

Definition Record_edit_phone (old_phone new_phone : string) : M record unit :=
  self <- get ;;
  match Record_find_phone new_phone self with
  | Some _ =>
      raise (ValueError ("Phone number '" ++ new_phone ++ "' already exists."))
  | None =>
      Record_add_phone new_phone ;;;
      Record_remove_phone old_phone
  end.

Definition Record_add_birthday (b : string) : M record unit :=
  v <- lift (Birthday_init b) ;;
  self <- get ;;
  put (set_birthday self (Some v)).

(** [Record.__str__]. *)
Definition Record_str (self : record) : string :=
  let bday :=
    match birthday self with
    | Some b => ", birthday: " ++ b
    | None => ""
    end in
  "Contact name: " ++ name self ++ ", phones: " ++ join "; " (phones self)
  ++ bday.

(** ** AddressBook

    The [data] dictionary, in insertion order: a list of (key, record)
    with no key twice. *)

Definition AddressBook : Type := list (string * record).

Fixpoint dict_get (key : string) (data : AddressBook) : option record :=
  match data with
  | [] => None
  | (k, v) :: data' => if (k =? key)%string then Some v else dict_get key data'
  end.

(** [data[key] = v]: an existing key keeps its place. *)
Fixpoint dict_set (key : string) (v : record) (data : AddressBook)
  : AddressBook :=
  match data with
  | [] => [(key, v)]
  | (k, w) :: data' =>
      if (k =? key)%string then (k, v) :: data'
      else (k, w) :: dict_set key v data'
  end.

(** [del data[key]]. *)
Definition dict_del (key : string) (data : AddressBook) : AddressBook :=
  filter (fun kv => negb (fst kv =? key)%string) data.

Definition values (data : AddressBook) : list record := map snd data.

Definition AddressBook_add_record (r : record) : M AddressBook unit :=
  fun book => (Ok tt, dict_set (name r) r book).

Definition AddressBook_find (name : string) (book : AddressBook)
  : option record :=
  dict_get name book.

Definition AddressBook_delete (name : string) : M AddressBook unit :=
  fun book =>
    match dict_get name book with
    | Some _ => (Ok tt, dict_del name book)
    | None =>
        (Raise (KeyError ("Record with name '" ++ name ++ "' not found.")), book)
    end.

(** A method call on the record object stored under [key]: the book holds
    the object itself, so what the method does to it shows in the book.
    The commands call it only after they have found the key. *)
Definition on_record {A} (key : string) (m : M record A) : M AddressBook A :=
  fun book =>
    match dict_get key book with
    | Some r => let '(o, r') := m r in (o, dict_set key r' book)
    | None => (Raise (KeyError key), book)
    end.

(** [for x in xs: body x]. *)
Fixpoint for_each {S X} (xs : list X) (body : X -> M S unit) : M S unit :=
  match xs with
  | [] => ret tt
  | x :: xs' => body x ;;; for_each xs' body
  end.

(** One round of the loop of [get_upcoming_birthdays]; the state is the
    local list [upcoming] of (name, formatted date). *)
Definition upcoming_body (today : datetime.date) (r : record)
  : M (list (string * string)) unit :=
  match birthday r with
  | None => ret tt
  | Some b =>
      bday <- lift (Birthday_to_datetime b) ;;
      bday_this_year <- lift (datetime.replace_year bday (datetime.year today)) ;;
      bday_this_year <-
        (if datetime.lt bday_this_year today
         then lift (datetime.replace_year bday_this_year (datetime.year today + 1))
         else ret bday_this_year) ;;
      let days_diff := datetime.sub_days bday_this_year today in
      if (0 <=? days_diff) && (days_diff <=? 7)
      then
        congratulate_date <-
          (if datetime.weekday bday_this_year >=? 5
           then
             let days_to_monday := 7 - datetime.weekday bday_this_year in
             lift (datetime.add_days bday_this_year days_to_monday)
           else ret bday_this_year) ;;
        upcoming <- get ;;
        put (upcoming ++ [(name r, datetime.strftime_dmY congratulate_date)])%list
      else ret tt
  end.

Definition AddressBook_get_upcoming_birthdays (today : datetime.date)
    (book : AddressBook) : outcome (list (string * string)) :=
  match for_each (values book) (upcoming_body today) [] with
  | (Ok _, upcoming) => Ok upcoming
  | (Raise e, _) => Raise e
  end.

(** ** Command layer *)

(** The decorator: three kinds of exception become fixed replies, any
    other kind passes through. *)
Definition input_error {A} (func : A -> M AddressBook string)
  : A -> M AddressBook string :=
  fun args =>
    try_except (func args)
      (fun e =>
         match e with
         | KeyError _ => Some (ret "Contact not found.")
         | ValueError _ => Some (ret "Give me name and phone please.")
         | IndexError _ =>
             Some (ret "Invalid input. Please provide the correct number of arguments.")
         | OverflowError _ => None
         end).

(** [a, b = args]; the text of the error is never shown. *)
Definition unpack2 (args : list string) : outcome (string * string) :=
  match args with
  | [a; b] => Ok (a, b)
  | [] | [_] => Raise (ValueError "not enough values to unpack")
  | _ => Raise (ValueError "too many values to unpack")
  end.

(** [a, b, c = args]. *)
Definition unpack3 (args : list string) : outcome (string * string * string) :=
  match args with
  | [a; b; c] => Ok (a, b, c)
  | [] | [_] | [_; _] => Raise (ValueError "not enough values to unpack")
  | _ => Raise (ValueError "too many values to unpack")
  end.

(** [args[0]]. *)
Definition item0 (args : list string) : outcome string :=
  match args with
  | a :: _ => Ok a
  | [] => Raise (IndexError "list index out of range")
  end.

(** [except ValueError as e: return str(e)]; the text of a ValueError
    built from one message is the message. *)
Definition except_ValueError_as_str (e : exn) : option (M AddressBook string) :=
  match e with
  | ValueError msg => Some (ret msg)
  | _ => None
  end.

Definition add_contact_wrapped (args : list string) : M AddressBook string :=
  '(name, phone) <- lift (unpack2 args) ;;
  book <- get ;;
  match AddressBook_find name book with
  | None => AddressBook_add_record (Record_init name)
  | Some _ => ret tt
  end ;;;
  try_except
    (on_record name (Record_add_phone phone) ;;; ret "Contact added.")
    except_ValueError_as_str.

Definition add_contact := input_error add_contact_wrapped.

Definition change_contact_wrapped (args : list string) : M AddressBook string :=
  '(name, old_phone, new_phone) <- lift (unpack3 args) ;;
  book <- get ;;
  match AddressBook_find name book with
  | None => raise (KeyError "Contact not found.")
  | Some _ =>
      on_record name (Record_edit_phone old_phone new_phone) ;;;
      ret "Phone updated."
  end.

Definition change_contact := input_error change_contact_wrapped.

Definition show_phone_wrapped (args : list string) : M AddressBook string :=
  name <- lift (item0 args) ;;
  contacts <- get ;;
  match dict_get name contacts with
  | None => raise (KeyError "Contact not found.")
  | Some r => ret (join "; " (phones r))
  end.

Definition show_phone := input_error show_phone_wrapped.

Definition show_all_wrapped (_ : unit) : M AddressBook string :=
  contacts <- get ;;
  match contacts with
  | [] => ret "No contacts saved."
  | _ => ret (join newline (map Record_str (values contacts)))
  end.

Definition show_all : M AddressBook string := input_error show_all_wrapped tt.

Definition remove_phone_command_wrapped (args : list string)
  : M AddressBook string :=
  '(name, phone) <- lift (unpack2 args) ;;
  contacts <- get ;;
  match dict_get name contacts with
  | None => raise (KeyError "")
  | Some _ =>
      try_except
        (on_record name (Record_remove_phone phone) ;;;
         contacts <- get ;;
         match option_map phones (dict_get name contacts) with
         | Some [] =>
             put (dict_del name contacts) ;;;
             ret ("Phone removed. Contact '" ++ name
                  ++ "' deleted because no phones left.")
         | _ =>
             ret ("Phone '" ++ phone ++ "' removed from contact '" ++ name
                  ++ "'.")
         end)
        except_ValueError_as_str
  end.

Definition remove_phone_command := input_error remove_phone_command_wrapped.

Definition delet_wrapped (args : list string) : M AddressBook string :=
  name <- lift (item0 args) ;;
  AddressBook_delete name ;;;
  ret ("Contact <" ++ name ++ "> deleted.").

Definition delet := input_error delet_wrapped.

Definition add_birthday_wrapped (args : list string) : M AddressBook string :=
  if negb (Z.of_nat (List.length args) =? 2)
  then
    raise (ValueError
      "Please provide both name and birthday. Format: <name> <DD.MM.YYYY>")
  else
    '(name, bday) <- lift (unpack2 args) ;;
    book <- get ;;
    match AddressBook_find name book with
    | None => raise (KeyError "Contact not found.")
    | Some _ =>
        on_record name (Record_add_birthday bday) ;;;
        ret "Birthday added."
    end.

Definition add_birthday := input_error add_birthday_wrapped.

Definition show_birthday_wrapped (args : list string) : M AddressBook string :=
  name <- lift (item0 args) ;;
  book <- get ;;
  match AddressBook_find name book with
  | Some r =>
      match birthday r with
      | Some b => ret b
      | None => raise (KeyError "Birthday not found.")
      end
  | None => raise (KeyError "Birthday not found.")
  end.

Definition show_birthday := input_error show_birthday_wrapped.

Definition birthdays_wrapped (today : datetime.date) (args : list string)
  : M AddressBook string :=
  book <- get ;;
  upcoming <- lift (AddressBook_get_upcoming_birthdays today book) ;;
  match upcoming with
  | [] => ret "No upcoming birthdays this week."
  | _ =>
      ret (join newline
             (map (fun item => fst item ++ " - " ++ snd item) upcoming))
  end.

Definition birthdays (today : datetime.date) :=
  input_error (birthdays_wrapped today).

(** ** Reading a line

    The [str] methods [parse_input] and [main] call.  Below U+0100 the
    white space of [str.split] and [str.strip] is U+0009..U+000D,
    U+001C..U+0020, U+0085 and U+00A0, and [str.lower] moves A..Z and
    U+00C0..U+00DE (but not the sign U+00D7) up by 32. *)

Definition isspace_char (c : ascii) : bool :=
  ((9 <=? code c) && (code c <=? 13))
  || ((28 <=? code c) && (code c <=? 32))
  || (code c =? 133) || (code c =? 160).

Definition is_empty (s : string) : bool :=
  match s with
  | EmptyString => true
  | String _ _ => false
  end.

(** [s.split()]: the maximal runs of characters that are not white space;
    [word] is the run being read. *)
Fixpoint split_from (word : string) (s : string) : list string :=
  match s with
  | EmptyString => if is_empty word then [] else [word]
  | String c s' =>
      if isspace_char c
      then if is_empty word then split_from "" s'
           else word :: split_from "" s'
      else split_from (word ++ String c "") s'
  end.

Definition split (s : string) : list string := split_from "" s.

Fixpoint str_lstrip (s : string) : string :=
  match s with
  | String c s' => if isspace_char c then str_lstrip s' else s
  | EmptyString => s
  end.

Fixpoint str_rstrip (s : string) : string :=
  match s with
  | String c s' =>
      let t := str_rstrip s' in
      if is_empty t && isspace_char c then "" else String c t
  | EmptyString => s
  end.

(** [s.strip()]. *)
Definition strip (s : string) : string := str_rstrip (str_lstrip s).

Definition lower_char (c : ascii) : ascii :=
  if ((65 <=? code c) && (code c <=? 90))
     || ((192 <=? code c) && (code c <=? 222) && negb (code c =? 215))
  then ascii_of_N (Z.to_N (code c + 32))
  else c.

(** [s.lower()]. *)
Fixpoint lower (s : string) : string :=
  match s with
  | EmptyString => ""
  | String c s' => String (lower_char c) (lower s')
  end.

(** [parse_input]: [cmd, *args = user_input.split()] needs at least one
    word. *)
Definition parse_input (user_input : string)
  : outcome (string * list string) :=
  match split user_input with
  | [] => Raise (ValueError "not enough values to unpack")
  | cmd :: args => Ok (lower (strip cmd), args)
  end.

(** ** The session *)

Definition bot_support : string :=
  join newline
    [ "Supported commands:";
      "hello - Greet the bot";
      "add <name> <phone> - Add a new contact";
      "change <name> <old_phone> <new_phone> - Change a contact's phone";
      "phone <name> - Show phone numbers for a contact";
      "all - Show all contacts";
      "add-birthday <name> <date> - Add birthday";
      "show-birthday <name> - Show birthday";
      "birthdays - Show all birthdays";
      "help - Show this help message";
      "remove-phone <name> <phone> - Remove a phone number from a contact";
      "delet <name> - Delete a contact";
      "exit - Exit the bot" ].

(** The branches of [main] after [exit]: what is displayed for a command,
    and what the command does to the book. *)
Definition dispatch (today : datetime.date) (command : string)
    (args : list string) : M AddressBook string :=
  if (command =? "help")%string then ret bot_support
  else if (command =? "hello")%string then ret "How can I help you?"
  else if (command =? "add")%string then add_contact args
  else if (command =? "change")%string then change_contact args
  else if (command =? "phone")%string then show_phone args
  else if (command =? "all")%string then show_all
  else if (command =? "delet")%string then delet args
  else if (command =? "add-birthday")%string then add_birthday args
  else if (command =? "show-birthday")%string then show_birthday args
  else if (command =? "birthdays")%string then birthdays today args
  else if (command =? "remove-phone")%string then remove_phone_command args
  else ret "Invalid command.".

(** How a session ends: [exit] saves the book; an exception that nothing
    catches ends it without saving, and so does the end of the input,
    where [input] raises EOFError. *)
Inductive ending : Type :=
| Saved (book : AddressBook)
| Crashed (e : exn)
| EndOfInput.

(** The loop of [main] on the lines the prompt returns, each with the
    date of the day it is entered: the messages displayed and the way the
    session ends. *)
Fixpoint main_loop (inputs : list (datetime.date * string))
    (book : AddressBook) : list string * ending :=
  match inputs with
  | [] => ([], EndOfInput)
  | (today, line) :: inputs' =>
      let user_input := strip line in
      if is_empty user_input
      then
        let '(shown, e) := main_loop inputs' book in
        ("Please enter a valid command. Write <help> to see all commands."
           :: shown, e)
      else
        match parse_input user_input with
        | Raise e => ([], Crashed e)
        | Ok (command, args) =>
            if (command =? "exit")%string
            then (["Good bye!"], Saved book)
            else
              match dispatch today command args book with
              | (Ok message, book') =>
                  let '(shown, e) := main_loop inputs' book' in
                  (message :: shown, e)
              | (Raise e, _) => ([], Crashed e)
              end
        end
  end.

(** [main], with the book [load_data] returned. *)
Definition main (inputs : list (datetime.date * string))
    (book : AddressBook) : list string * ending :=
  let '(shown, e) := main_loop inputs book in
  ("Welcome to the assistant bot!" :: shown, e).

(** ** Invariants of the data *)

(** A record as the methods build it: valid phones, none twice, and a
    birthday text that parses. *)
Definition record_ok (r : record) : Prop :=
  Forall (fun p => Phone_init p = Ok p) (phones r)
  /\ NoDup (phones r)
  /\ match birthday r with
     | Some b => exists dt, Birthday_to_datetime b = Ok dt
     | None => True
     end.

(** A book as the commands build it: no name twice, every record stored
    under its own name, every record well formed. *)
Definition book_ok (book : AddressBook) : Prop :=
  NoDup (map fst book)
  /\ Forall (fun kv => name (snd kv) = fst kv /\ record_ok (snd kv)) book.

(** ** Notions used by the properties beyond the claims *)

(** What a method may do to a record: keep its name and its invariant. *)
Definition keeps_record {A} (m : M record A) : Prop :=
  forall r o r', m r = (o, r') ->
                 name r' = name r /\ (record_ok r -> record_ok r').

Definition keeps_book {A} (m : M AddressBook A) : Prop :=
  forall book o book', book_ok book -> m book = (o, book') -> book_ok book'.

Definition reads_only {A} (m : M AddressBook A) : Prop :=
  forall book, snd (m book) = book.

(** The exceptions [input_error] catches. *)
Definition caught (e : exn) : Prop :=
  match e with
  | OverflowError _ => False
  | _ => True
  end.

Definition raises_caught {S A} (m : M S A) : Prop :=
  forall s e s', m s = (Raise e, s') -> caught e.

(** A word: not empty, no white space. *)
Definition word (w : string) : Prop :=
  w <> "" /\ all_chars (fun c => negb (isspace_char c)) w = true.

(** How the loop ends, read off its result. *)
Inductive run : list (datetime.date * string) -> AddressBook ->
                list string -> ending -> Prop :=
| run_eof book : run [] book [] EndOfInput
| run_blank today line inputs book shown e :
    is_empty (strip line) = true ->
    run inputs book shown e ->
    run ((today, line) :: inputs) book
      ("Please enter a valid command. Write <help> to see all commands."
         :: shown) e
| run_exit today line inputs book args :
    parse_input (strip line) = Ok ("exit", args) ->
    run ((today, line) :: inputs) book ["Good bye!"] (Saved book)
| run_command today line inputs book command args message book' shown e :
    parse_input (strip line) = Ok (command, args) ->
    command <> "exit" ->
    dispatch today command args book = (Ok message, book') ->
    run inputs book' shown e ->
    run ((today, line) :: inputs) book (message :: shown) e.

(** The book after one turn of the loop on a line that is not [exit]: a
    blank line leaves it as it is, a command line hands it to the
    handler. *)
Definition line_effect (book : AddressBook)
    (input : datetime.date * string) : AddressBook :=
  match parse_input (strip (snd input)) with
  | Ok (command, args) => snd (dispatch (fst input) command args book)
  | Raise _ => book
  end.

(** The first word of the line is not [exit]. *)
Definition not_exit (input : datetime.date * string) : Prop :=
  forall args, parse_input (strip (snd input)) <> Ok ("exit", args).

(** ** The properties, in the words of the specification *)

(** A decimal digit: one of the ten characters 0 to 9. *)
Definition decimal_digit (c : ascii) : bool :=
  existsb (Ascii.eqb c)
    ["0"; "1"; "2"; "3"; "4"; "5"; "6"; "7"; "8"; "9"]%char.

(** Exactly ten characters, every one a decimal digit. *)
Definition ten_decimal_digits (s : string) : bool :=
  (String.length s =? 10)%nat && all_chars decimal_digit s.

(** The superscript digits U+00B9, U+00B2 and U+00B3. *)
Definition superscript_digit (c : ascii) : bool :=
  existsb (Ascii.eqb c) ["185"; "178"; "179"]%char.

(** Ten characters, every one a decimal digit or a superscript digit. *)
Definition ten_digit_characters (s : string) : bool :=
  (String.length s =? 10)%nat
  && all_chars (fun c => decimal_digit c || superscript_digit c) s.

Definition ten_superscript_twos : string :=
  String "178" (String "178" (String "178" (String "178" (String "178"
  (String "178" (String "178" (String "178" (String "178" (String "178"
  ""))))))))).

Definition phone_message : string := "Phone number must be 10 digits long.".

(** *** Birthday texts *)

Definition digit_value (c : ascii) : Z := code c - 48.

(** The number written by a text of decimal digits. *)
Fixpoint number_from (acc : Z) (s : string) : option Z :=
  match s with
  | EmptyString => Some acc
  | String c s' =>
      if decimal_digit c then number_from (acc * 10 + digit_value c) s'
      else None
  end.

Definition number (s : string) : option Z :=
  match s with
  | EmptyString => None
  | _ => number_from 0 s
  end.

(** A day or month field: one or two decimal digits. *)
Definition short_field (s : string) : option Z :=
  if (String.length s <=? 2)%nat then number s else None.

(** A day field may also be a blank followed by one digit. *)
Definition day_field (s : string) : option Z :=
  match s with
  | String c1 (String c2 "") =>
      if Ascii.eqb c1 " " then number (String c2 "") else short_field s
  | _ => short_field s
  end.

Definition month_field (s : string) : option Z := short_field s.

(** A year field: exactly four decimal digits. *)
Definition year_field (s : string) : option Z :=
  if (String.length s =? 4)%nat then number s else None.

(** Thirty days has September, April, June and November; February has 28,
    and 29 in a leap year; the others have 31. *)
Definition leap_year (y : Z) : bool :=
  if y mod 400 =? 0 then true
  else if y mod 100 =? 0 then false
  else y mod 4 =? 0.

Definition month_length (y m : Z) : Z :=
  match m with
  | 9 | 4 | 6 | 11 => 30
  | 2 => if leap_year y then 29 else 28
  | 1 | 3 | 5 | 7 | 8 | 10 | 12 => 31
  | _ => 0
  end.

(** A day that exists in the calendar, in the years 1 to 9999. *)
Definition real_date (y m d : Z) : bool :=
  (1 <=? y) && (y <=? 9999) && (1 <=? m) && (m <=? 12)
  && (1 <=? d) && (d <=? month_length y m).

(** The texts [Birthday] accepts: day, month and year fields joined by
    dots that name a real date. *)
Definition written_date (s : string) (y m d : Z) : Prop :=
  exists dd mm yyyy,
    s = dd ++ "." ++ mm ++ "." ++ yyyy
    /\ day_field dd = Some d
    /\ month_field mm = Some m
    /\ year_field yyyy = Some y
    /\ real_date y m d = true.


Definition birthday_message : string := "Invalid date format. Use DD.MM.YYYY".

(** *** Upcoming birthdays *)

(** A date object: its fields name a real date. *)
Definition valid (dt : datetime.date) : Prop :=
  real_date (datetime.year dt) (datetime.month dt) (datetime.day dt) = true.

Inductive day_name : Type :=
| Monday | Tuesday | Wednesday | Thursday | Friday | Saturday | Sunday.

(** Days are counted from 1 January of year 1, which is a Monday. *)
Definition day_of_week (dt : datetime.date) : day_name :=
  nth (Z.to_nat ((datetime.toordinal dt - 1) mod 7))
    [Monday; Tuesday; Wednesday; Thursday; Friday; Saturday; Sunday] Monday.

(** [a] is before [b]: it has the smaller day count. *)
Definition before (a b : datetime.date) : bool :=
  datetime.toordinal a <? datetime.toordinal b.

(** The date [n] days after [dt]. *)
Definition days_later (dt : datetime.date) (n : Z) : datetime.date :=
  datetime.fromordinal (datetime.toordinal dt + n).

(** The birthday's month and day in the reference year, or in the next
    year when that date is before the reference date. *)
Definition projected (today bday : datetime.date) : datetime.date :=
  let this_year :=
    datetime.mkdate (datetime.year today) (datetime.month bday)
      (datetime.day bday) in
  if before this_year today
  then datetime.mkdate (datetime.year today + 1) (datetime.month bday)
         (datetime.day bday)
  else this_year.

(** Saturday moves on by two days, Sunday by one. *)
Definition congratulation (p : datetime.date) : datetime.date :=
  match day_of_week p with
  | Saturday => days_later p 2
  | Sunday => days_later p 1
  | _ => p
  end.

(** What one record contributes to the result. *)
Definition upcoming_of (today : datetime.date) (r : record)
  : list (string * string) :=
  match birthday r with
  | None => []
  | Some b =>
      match Birthday_to_datetime b with
      | Ok bday =>
          let p := projected today bday in
          let days_diff := datetime.toordinal p - datetime.toordinal today in
          if (0 <=? days_diff) && (days_diff <=? 7)
          then [(name r, datetime.strftime_dmY (congratulation p))]
          else []
      | Raise _ => []
      end
  end.

(** The records in the order of the book, each with its contribution. *)
Definition upcoming_spec (today : datetime.date) (book : AddressBook)
  : list (string * string) :=
  flat_map (upcoming_of today) (values book).

(** The month and day of [bday] exist in year [y]. *)
Definition exists_in_year (y : Z) (bday : datetime.date) : bool :=
  real_date y (datetime.month bday) (datetime.day bday).

(** The projection of the record's birthday is defined: the birthday is a
    date, it exists in the reference year, and in the next year when
    the projection moves there. *)
Definition projectable (today : datetime.date) (r : record) : bool :=
  match birthday r with
  | None => true
  | Some b =>
      match Birthday_to_datetime b with
      | Ok bday =>
          exists_in_year (datetime.year today) bday
          && (if before
                   (datetime.mkdate (datetime.year today)
                      (datetime.month bday) (datetime.day bday)) today
              then exists_in_year (datetime.year today + 1) bday
              else true)
      | Raise _ => false
      end
  end.

(** Every character of the range. *)
Definition all256 : list ascii := map ascii_of_nat (seq 0 256).

(** * Proofs *)

(** ** The state-and-exception layer *)

Lemma bind_ok {S A B} (m : M S A) (k : A -> M S B) s a s' :
  m s = (Ok a, s') -> bind m k s = k a s'.
Proof. unfold bind. intros ->. reflexivity. Qed.

Lemma bind_raise {S A B} (m : M S A) (k : A -> M S B) s e s' :
  m s = (Raise e, s') -> bind m k s = (Raise e, s').
Proof. unfold bind. intros ->. reflexivity. Qed.

(** ** Characters and phone numbers *)

Lemma isdigit_char_spec c :
  isdigit_char c = decimal_digit c || superscript_digit c.
Proof. destruct c as [[] [] [] [] [] [] [] []]; reflexivity. Qed.

Lemma all_chars_ext (p q : ascii -> bool) s :
  (forall c, p c = q c) -> all_chars p s = all_chars q s.
Proof.
  intros E. induction s as [|c s IH]; simpl.
  - reflexivity.
  - now rewrite E, IH.
Qed.

Lemma len_is_10 s : (len s =? 10) = (String.length s =? 10)%nat.
Proof.
  unfold len.
  destruct (Nat.eqb_spec (String.length s) 10) as [E|E].
  - rewrite E. reflexivity.
  - apply Z.eqb_neq. lia.
Qed.

Lemma isdigit_nonempty s :
  (String.length s =? 10)%nat = true -> isdigit s = all_chars isdigit_char s.
Proof. destruct s; [discriminate | reflexivity]. Qed.

Lemma Phone_init_test s :
  (len s =? 10) && isdigit s = ten_digit_characters s.
Proof.
  unfold ten_digit_characters. rewrite len_is_10.
  destruct (String.length s =? 10)%nat eqn:E; simpl.
  - rewrite (isdigit_nonempty _ E). apply all_chars_ext, isdigit_char_spec.
  - reflexivity.
Qed.

(** C2, as stated, fails: ten superscript twos pass [Phone.__init__]
    although none of them is a decimal digit. *)
Lemma C2_superscripts_accepted :
  Phone_init ten_superscript_twos = Ok ten_superscript_twos
  /\ ten_decimal_digits ten_superscript_twos = false.
Proof. split; reflexivity. Qed.

(** C2 (amended): phone validation succeeds exactly on the strings of ten
    characters each of which is a decimal digit or a superscript digit;
    on success the value is the string itself, on failure the
    "Phone number must be 10 digits long." ValueError is raised. *)
Theorem C2_phone_validation (s : string) :
  (ten_digit_characters s = true -> Phone_init s = Ok s)
  /\ (ten_digit_characters s = false ->
      Phone_init s = Raise (ValueError phone_message))
  /\ ((exists v, Phone_init s = Ok v) <-> ten_digit_characters s = true)
  /\ (ten_decimal_digits s = true -> Phone_init s = Ok s).
Proof.
  unfold Phone_init. rewrite Phone_init_test.
  assert (D : ten_decimal_digits s = true -> ten_digit_characters s = true).
  { unfold ten_decimal_digits, ten_digit_characters.
    destruct (String.length s =? 10)%nat; simpl; [|discriminate].
    clear. induction s as [|c s IH]; simpl; [reflexivity|].
    intros H. apply andb_true_iff in H as [Hc Hs].
    rewrite Hc, (IH Hs). reflexivity. }
  destruct (ten_digit_characters s) eqn:E.
  - repeat split; try reflexivity; try discriminate; eauto.
  - repeat split; try reflexivity; try discriminate.
    + intros [v Hv]. discriminate.
    + intros H. apply D in H. discriminate.
Qed.

Lemma C2_phone_validation_witness :
  Phone_init "1234567890" = Ok "1234567890".
Proof.
  apply (proj1 (C2_phone_validation "1234567890")). reflexivity.
Defined.

(** ** Record *)

Section RecordFacts.

Variable self : record.

Lemma find_phone_None p :
  Record_find_phone p self = None <-> ~ In p (phones self).
Proof.
  unfold Record_find_phone. induction (phones self) as [|q l IH]; simpl.
  - tauto.
  - destruct (String.eqb_spec q p) as [->|N].
    + split; [discriminate | intros H; exfalso; apply H; now left].
    + rewrite IH. split; [intros H [E|I]; congruence | tauto].
Qed.

Lemma find_phone_Some p q :
  Record_find_phone p self = Some q -> q = p /\ In p (phones self).
Proof.
  unfold Record_find_phone. intros H. apply find_some in H as [I E].
  apply String.eqb_eq in E. subst. tauto.
Qed.

Lemma find_phone_appended p :
  Record_find_phone p self = None ->
  Record_find_phone p (set_phones self (phones self ++ [p])) = Some p.
Proof.
  unfold Record_find_phone, set_phones; simpl.
  induction (phones self) as [|q l IH]; simpl.
  - now rewrite String.eqb_refl.
  - destruct (q =? p)%string; [discriminate | exact IH].
Qed.

Lemma find_phone_other p q :
  p <> q ->
  Record_find_phone p (set_phones self (phones self ++ [q]))
  = Record_find_phone p self.
Proof.
  intros N. unfold Record_find_phone, set_phones; simpl.
  induction (phones self) as [|x l IH]; simpl.
  - destruct (String.eqb_spec q p); congruence.
  - destruct (x =? p)%string; [reflexivity | exact IH].
Qed.

Lemma add_phone_fresh p :
  Record_find_phone p self = None ->
  Phone_init p = Ok p ->
  Record_add_phone p self = (Ok tt, set_phones self (phones self ++ [p])).
Proof.
  intros F V. unfold Record_add_phone, bind, get, lift, put.
  rewrite F, V. reflexivity.
Qed.

Lemma add_phone_present p q :
  Record_find_phone p self = Some q ->
  Record_add_phone p self
  = (Raise (ValueError ("Phone number '" ++ p ++ "' already exists.")), self).
Proof.
  intros F. unfold Record_add_phone, bind, get, raise. rewrite F. reflexivity.
Qed.

Lemma remove_phone_absent p :
  Record_find_phone p self = None ->
  Record_remove_phone p self
  = (Raise (ValueError ("Phone number '" ++ p ++ "' not found.")), self).
Proof.
  intros F. unfold Record_remove_phone, bind, get, raise. rewrite F.
  reflexivity.
Qed.

End RecordFacts.

Lemma Phone_init_value p v : Phone_init p = Ok v -> v = p.
Proof.
  unfold Phone_init. destruct (_ && _); [congruence | discriminate].
Qed.

(** C7: adding a valid phone the record does not hold appends it at the
    end and leaves the rest of the record alone; [find_phone] then returns
    it; adding it once more raises and changes nothing. *)
Theorem C7_add_then_find (r : record) (p : string) :
  Phone_init p = Ok p ->
  Record_find_phone p r = None ->
  exists r1,
    Record_add_phone p r = (Ok tt, r1)
    /\ phones r1 = (phones r ++ [p])%list
    /\ name r1 = name r /\ birthday r1 = birthday r
    /\ Record_find_phone p r1 = Some p
    /\ Record_add_phone p r1
       = (Raise (ValueError ("Phone number '" ++ p ++ "' already exists.")), r1).
Proof.
  intros V F. exists (set_phones r (phones r ++ [p])).
  pose proof (find_phone_appended r p F) as F1.
  repeat split; auto using add_phone_fresh.
  eapply add_phone_present; eassumption.
Qed.

Lemma C7_add_then_find_witness :
  exists r1,
    Record_add_phone "1234567890" (Record_init "alice") = (Ok tt, r1)
    /\ phones r1 = (phones (Record_init "alice") ++ ["1234567890"])%list
    /\ name r1 = name (Record_init "alice")
    /\ birthday r1 = birthday (Record_init "alice")
    /\ Record_find_phone "1234567890" r1 = Some "1234567890"
    /\ Record_add_phone "1234567890" r1
       = (Raise (ValueError
            ("Phone number '" ++ "1234567890" ++ "' already exists.")), r1).
Proof.
  apply (C7_add_then_find (Record_init "alice") "1234567890"); reflexivity.
Defined.

(** C4, as stated, fails when [old] and [new] are the same number: the
    number is added, then found and removed again, and the call returns
    normally with the phone list as it was. *)
Lemma C4_same_number_succeeds :
  Phone_init "1234567890" = Ok "1234567890"
  /\ Record_find_phone "1234567890" (Record_init "bob") = None
  /\ Record_edit_phone "1234567890" "1234567890" (Record_init "bob")
     = (Ok tt, Record_init "bob")
  /\ ~ In "1234567890" (phones (Record_init "bob")).
Proof. repeat split. simpl. tauto. Qed.

(** C4 (amended): for a valid [new] the record does not hold,
    [edit_phone old new] adds [new] and then removes [old]; when [old] is
    not in the record and differs from [new], the removal raises and [new]
    stays at the end of the phone list. *)
Theorem C4_edit_adds_before_removing (r : record) (old new : string) :
  Phone_init new = Ok new ->
  Record_find_phone new r = None ->
  Record_edit_phone old new r
  = bind (Record_add_phone new) (fun _ => Record_remove_phone old) r
  /\ (Record_find_phone old r = None -> old <> new ->
      Record_edit_phone old new r
      = (Raise (ValueError ("Phone number '" ++ old ++ "' not found.")),
         set_phones r (phones r ++ [new]))
      /\ Record_find_phone new (set_phones r (phones r ++ [new])) = Some new).
Proof.
  intros V F.
  assert (E : Record_edit_phone old new r
              = bind (Record_add_phone new)
                  (fun _ => Record_remove_phone old) r).
  { unfold Record_edit_phone at 1. unfold bind at 1, get. rewrite F.
    reflexivity. }
  split; [exact E|]. intros Fo N. split.
  - rewrite E.
    rewrite (bind_ok _ _ _ _ _ (add_phone_fresh r new F V)).
    apply remove_phone_absent. rewrite find_phone_other; assumption.
  - now apply find_phone_appended.
Qed.

Lemma C4_edit_adds_before_removing_witness :
  Record_edit_phone "1111111111" "2222222222" (Record_init "bob")
  = (Raise (ValueError ("Phone number '" ++ "1111111111" ++ "' not found.")),
     set_phones (Record_init "bob")
       (phones (Record_init "bob") ++ ["2222222222"])).
Proof.
  apply (C4_edit_adds_before_removing (Record_init "bob")
           "1111111111" "2222222222");
    [reflexivity | reflexivity | reflexivity | discriminate].
Defined.

(** ** The dictionary *)

Section DictFacts.

Variable key : string.

Lemma dict_get_set_same v data : dict_get key (dict_set key v data) = Some v.
Proof.
  induction data as [|[k w] data IH]; simpl.
  - now rewrite String.eqb_refl.
  - destruct (k =? key)%string eqn:E; simpl; rewrite E; auto.
Qed.

Lemma dict_set_fresh v data :
  dict_get key data = None -> dict_set key v data = (data ++ [(key, v)])%list.
Proof.
  induction data as [|[k w] data IH]; simpl; intros H.
  - reflexivity.
  - destruct (k =? key)%string; [discriminate | now rewrite IH].
Qed.

Lemma dict_set_same v data :
  dict_get key data = Some v -> dict_set key v data = data.
Proof.
  induction data as [|[k w] data IH]; simpl; intros H.
  - discriminate.
  - destruct (k =? key)%string; [congruence | now rewrite IH].
Qed.

Lemma dict_get_del data : dict_get key (dict_del key data) = None.
Proof.
  induction data as [|[k w] data IH]; simpl.
  - reflexivity.
  - destruct (k =? key)%string eqn:E; simpl; [|rewrite E]; exact IH.
Qed.

Lemma dict_del_set v data : dict_del key (dict_set key v data) = dict_del key data.
Proof.
  induction data as [|[k w] data IH]; simpl.
  - now rewrite String.eqb_refl.
  - destruct (k =? key)%string eqn:E; simpl; rewrite E; simpl; congruence.
Qed.

Lemma dict_del_In k v data :
  In (k, v) (dict_del key data) <-> In (k, v) data /\ k <> key.
Proof.
  unfold dict_del. rewrite filter_In. simpl.
  rewrite negb_true_iff, String.eqb_neq. reflexivity.
Qed.

End DictFacts.

Lemma on_record_found {A} key (m : M record A) book r o r' :
  dict_get key book = Some r -> m r = (o, r') ->
  on_record key m book = (o, dict_set key r' book).
Proof. unfold on_record. intros -> ->. reflexivity. Qed.

Lemma show_all_lists book :
  show_all book
  = (Ok match book with
        | [] => "No contacts saved."
        | _ => join newline (map Record_str (values book))
        end, book).
Proof. destruct book; reflexivity. Qed.

Lemma Phone_init_invalid phone :
  (forall v, Phone_init phone <> Ok v) ->
  Phone_init phone = Raise (ValueError phone_message).
Proof.
  unfold Phone_init. destruct (_ && _); intros H.
  - now destruct (H phone).
  - reflexivity.
Qed.

(** ** Commands *)

(** C9: [add] with a new name and an invalid phone answers with the phone
    validation message, yet the book has gained a record of that name with
    no phones, which [all] lists. *)
Theorem C9_add_invalid_phone_keeps_record (book : AddressBook) (nm phone : string) :
  AddressBook_find nm book = None ->
  (forall v, Phone_init phone <> Ok v) ->
  let book' := (book ++ [(nm, Record_init nm)])%list in
  add_contact [nm; phone] book = (Ok phone_message, book')
  /\ book' <> book
  /\ AddressBook_find nm book' = Some (mkRecord nm [] None)
  /\ show_all book'
     = (Ok (join newline
              (map Record_str (values book ++ [mkRecord nm [] None]))), book').
Proof.
  intros F V book'. apply Phone_init_invalid in V.
  unfold AddressBook_find in *.
  assert (G : dict_get nm book' = Some (Record_init nm)).
  { unfold book'. rewrite <- (dict_set_fresh nm _ _ F).
    apply dict_get_set_same. }
  repeat split.
  - unfold add_contact, input_error, add_contact_wrapped, try_except, bind,
      lift, get, AddressBook_find, AddressBook_add_record. simpl.
    rewrite F. simpl. rewrite (dict_set_fresh nm _ _ F). fold book'.
    unfold on_record. rewrite G.
    unfold Record_add_phone, bind, get, lift. simpl. rewrite V. simpl.
    unfold ret. rewrite (dict_set_same nm _ _ G). reflexivity.
  - unfold book'. intros E.
    apply (f_equal (@List.length _)) in E.
    rewrite length_app in E. simpl in E. lia.
  - exact G.
  - rewrite show_all_lists. unfold book', values. rewrite map_app. simpl.
    destruct book; reflexivity.
Qed.

Lemma C9_add_invalid_phone_keeps_record_witness :
  add_contact ["alice"; "12"] [] = (Ok phone_message, [("alice", Record_init "alice")]).
Proof.
  apply (C9_add_invalid_phone_keeps_record [] "alice" "12").
  - reflexivity.
  - intros v. discriminate.
Defined.

Lemma remove_only_phone r p :
  phones r = [p] ->
  Record_remove_phone p r = (Ok tt, set_phones r []).
Proof.
  intros P. unfold Record_remove_phone, bind, get, put, Record_find_phone.
  rewrite P. simpl. rewrite String.eqb_refl. simpl.
  now rewrite String.eqb_refl.
Qed.

(** C8: [remove-phone] on a contact whose only phone is [p] removes the
    phone, deletes the contact from the book and says so; the name is then
    unknown to the book, the other entries are kept in order, and [all]
    lists exactly those. *)
Theorem C8_remove_last_phone_deletes_contact
    (book : AddressBook) (nm p : string) (r : record) :
  dict_get nm book = Some r ->
  phones r = [p] ->
  let book' := dict_del nm book in
  remove_phone_command [nm; p] book
  = (Ok ("Phone removed. Contact '" ++ nm
         ++ "' deleted because no phones left."), book')
  /\ AddressBook_find nm book' = None
  /\ (forall k v, In (k, v) book' <-> In (k, v) book /\ k <> nm)
  /\ show_all book'
     = (Ok match book' with
           | [] => "No contacts saved."
           | _ => join newline (map Record_str (values book'))
           end, book').
Proof.
  intros G P book'. split; [|split; [|split]].
  - unfold remove_phone_command, input_error, remove_phone_command_wrapped,
      try_except, bind, lift, get. simpl. rewrite G.
    rewrite (on_record_found nm _ book r _ _ G (remove_only_phone r p P)).
    rewrite dict_get_set_same. simpl. unfold put, ret.
    rewrite dict_del_set. reflexivity.
  - apply dict_get_del.
  - intros k v. apply dict_del_In.
  - apply show_all_lists.
Qed.

Lemma C8_remove_last_phone_deletes_contact_witness :
  remove_phone_command ["alice"; "1234567890"]
    [("alice", mkRecord "alice" ["1234567890"] None);
     ("bob", mkRecord "bob" ["0987654321"] None)]
  = (Ok ("Phone removed. Contact '" ++ "alice"
         ++ "' deleted because no phones left."),
     dict_del "alice"
       [("alice", mkRecord "alice" ["1234567890"] None);
        ("bob", mkRecord "bob" ["0987654321"] None)]).
Proof.
  apply (C8_remove_last_phone_deletes_contact _ "alice" "1234567890"
           (mkRecord "alice" ["1234567890"] None)); reflexivity.
Defined.

Lemma edit_phone_present r old new q :
  Record_find_phone new r = Some q ->
  Record_edit_phone old new r
  = (Raise (ValueError ("Phone number '" ++ new ++ "' already exists.")), r).
Proof.
  intros F. unfold Record_edit_phone, bind, get, raise. rewrite F.
  reflexivity.
Qed.

(** C6: what the code does where the claim expects the duplicate-phone
    text.  On a contact that already holds [new], [change] answers with the
    decorator's generic reply: the ValueError of [edit_phone] is not caught
    inside [change_contact].  The sibling commands do catch theirs: [add]
    answers with the duplicate-phone text and [remove-phone] with the
    not-found text. *)
Theorem C6_change_duplicate_gets_generic_reply
    (book : AddressBook) (nm old new q : string) (r : record) :
  dict_get nm book = Some r ->
  Record_find_phone new r = Some q ->
  change_contact [nm; old; new] book
  = (Ok "Give me name and phone please.", book)
  /\ add_contact [nm; new] book
     = (Ok ("Phone number '" ++ new ++ "' already exists."), book)
  /\ (Record_find_phone old r = None ->
      remove_phone_command [nm; old] book
      = (Ok ("Phone number '" ++ old ++ "' not found."), book)).
Proof.
  intros G F. repeat split.
  - unfold change_contact, input_error, change_contact_wrapped, try_except,
      bind, lift, get, AddressBook_find. simpl. rewrite G.
    rewrite (on_record_found nm _ book r _ _ G (edit_phone_present r old new q F)).
    rewrite (dict_set_same nm _ _ G). reflexivity.
  - unfold add_contact, input_error, add_contact_wrapped, try_except,
      bind, lift, get, AddressBook_find. simpl. rewrite G. simpl.
    rewrite (on_record_found nm _ book r _ _ G (add_phone_present r new q F)).
    rewrite (dict_set_same nm _ _ G). reflexivity.
  - intros Fo.
    unfold remove_phone_command, input_error, remove_phone_command_wrapped,
      try_except, bind, lift, get. simpl. rewrite G.
    rewrite (on_record_found nm _ book r _ _ G (remove_phone_absent r old Fo)).
    rewrite (dict_set_same nm _ _ G). reflexivity.
Qed.

Lemma C6_change_duplicate_gets_generic_reply_witness :
  change_contact ["alice"; "1111111111"; "2222222222"]
    [("alice", mkRecord "alice" ["1111111111"; "2222222222"] None)]
  = (Ok "Give me name and phone please.",
     [("alice", mkRecord "alice" ["1111111111"; "2222222222"] None)]).
Proof.
  apply (C6_change_duplicate_gets_generic_reply _ "alice" "1111111111"
           "2222222222" "2222222222"
           (mkRecord "alice" ["1111111111"; "2222222222"] None));
    reflexivity.
Defined.

(** C5, as stated, fails: [add] called with no argument answers with the
    ValueError reply, not with the wrong-number-of-arguments reply. *)
Lemma C5_add_without_arguments :
  add_contact [] [] = (Ok "Give me name and phone please.", [])
  /\ add_contact [] []
     <> (Ok "Invalid input. Please provide the correct number of arguments.",
         []).
Proof. split; [reflexivity | discriminate]. Qed.

Lemma length_not_2 (args : list string) :
  List.length args <> 2%nat ->
  exists msg, unpack2 args = Raise (ValueError msg).
Proof.
  destruct args as [|a [|b [|c l]]]; simpl; intros H;
    try (eexists; reflexivity). congruence.
Qed.

Lemma length_not_3 (args : list string) :
  List.length args <> 3%nat ->
  exists msg, unpack3 args = Raise (ValueError msg).
Proof.
  destruct args as [|a [|b [|c [|d l]]]]; simpl; intros H;
    try (eexists; reflexivity). congruence.
Qed.

(** C5 (amended): the decorator turns a KeyError into "Contact not
    found.", a ValueError into "Give me name and phone please." and an
    IndexError into the wrong-number-of-arguments reply, keeping the book
    as the failed call left it.  A wrong number of arguments is a
    ValueError in the commands that unpack their arguments ([add],
    [change], [remove-phone], [add-birthday]) and an IndexError only in
    the commands that index them ([phone], [delet], [show-birthday]), when
    called with none. *)
Theorem C5_replies_by_exception_kind :
  (forall (A : Type) (func : A -> M AddressBook string) (x : A)
          (book book' : AddressBook) (msg : string),
      (func x book = (Raise (KeyError msg), book') ->
       input_error func x book = (Ok "Contact not found.", book'))
      /\ (func x book = (Raise (ValueError msg), book') ->
          input_error func x book
          = (Ok "Give me name and phone please.", book'))
      /\ (func x book = (Raise (IndexError msg), book') ->
          input_error func x book
          = (Ok "Invalid input. Please provide the correct number of arguments.",
             book')))
  /\ (forall (args : list string) (book : AddressBook),
        List.length args <> 2%nat ->
        add_contact args book = (Ok "Give me name and phone please.", book)
        /\ remove_phone_command args book
           = (Ok "Give me name and phone please.", book)
        /\ add_birthday args book
           = (Ok "Give me name and phone please.", book))
  /\ (forall (args : list string) (book : AddressBook),
        List.length args <> 3%nat ->
        change_contact args book
        = (Ok "Give me name and phone please.", book))
  /\ (forall book : AddressBook,
        let reply :=
          "Invalid input. Please provide the correct number of arguments." in
        show_phone [] book = (Ok reply, book)
        /\ delet [] book = (Ok reply, book)
        /\ show_birthday [] book = (Ok reply, book)).
Proof.
  split; [|split; [|split]].
  - intros A func x book book' msg. unfold input_error, try_except.
    repeat split; intros ->; reflexivity.
  - intros args book L. destruct (length_not_2 args L) as [msg U].
    repeat split.
    + unfold add_contact, input_error, add_contact_wrapped, try_except,
        bind, lift. rewrite U. reflexivity.
    + unfold remove_phone_command, input_error,
        remove_phone_command_wrapped, try_except, bind, lift.
      rewrite U. reflexivity.
    + unfold add_birthday, input_error, add_birthday_wrapped, try_except.
      destruct (Z.eqb_spec (Z.of_nat (List.length args)) 2) as [E|E];
        [lia | reflexivity].
  - intros args book L. destruct (length_not_3 args L) as [msg U].
    unfold change_contact, input_error, change_contact_wrapped, try_except,
      bind, lift. rewrite U. reflexivity.
  - intros book reply. repeat split.
Qed.

Lemma C5_replies_by_exception_kind_witness :
  change_contact ["bob"] [] = (Ok "Give me name and phone please.", [])
  /\ show_phone_wrapped [] [] = (Raise (IndexError "list index out of range"), [])
  /\ show_phone [] []
     = (Ok "Invalid input. Please provide the correct number of arguments.", []).
Proof.
  destruct C5_replies_by_exception_kind as [Adapter [_ [Change _]]].
  split; [|split].
  - apply (Change ["bob"] []). simpl. lia.
  - reflexivity.
  - apply (Adapter _ show_phone_wrapped [] [] [] "list index out of range").
    reflexivity.
Defined.

(** ** Parsing dates *)

Lemma all256_complete c : In c all256.
Proof.
  assert (H : existsb (Ascii.eqb c) all256 = true)
    by (destruct c as [[] [] [] [] [] [] [] []]; reflexivity).
  apply existsb_exists in H as [x [I E]]. apply Ascii.eqb_eq in E. now subst.
Qed.

Lemma class_cases (p : ascii -> bool) c : p c = true -> In c (filter p all256).
Proof. intros H. apply filter_In. auto using all256_complete. Qed.

(** Replace a character known by its class with each of its values. *)
Tactic Notation "enum" hyp(H) :=
  apply class_cases in H; cbv in H; decompose [or] H; clear H;
  try contradiction; subst.

Lemma re_digit_decimal c : datetime.re_digit c = decimal_digit c.
Proof. destruct c as [[] [] [] [] [] [] [] []]; reflexivity. Qed.

Lemma decimal_not_blank c : decimal_digit c = true -> Ascii.eqb c " " = false.
Proof. intros H. enum H; reflexivity. Qed.

Lemma match_group_inv k alts s caps unread :
  datetime.match_group k alts s = Some (caps, unread) ->
  exists a cap rest caps',
    In a alts /\ datetime.match_alt a s = Some (cap, rest)
    /\ k rest = Some (caps', unread) /\ caps = cap :: caps'.
Proof.
  induction alts as [|a alts IH]; simpl; intros H; [discriminate|].
  destruct (datetime.match_alt a s) as [[cap rest]|] eqn:Ha.
  - destruct (k rest) as [[caps' u]|] eqn:Hk.
    + injection H as <- <-. exists a, cap, rest, caps'. tauto.
    + destruct (IH H) as (a' & c' & r' & cs & I & R). exists a', c', r', cs. tauto.
  - destruct (IH H) as (a' & c' & r' & cs & I & R). exists a', c', r', cs. tauto.
Qed.

(** Take apart a successful match of a two- or one-class alternative. *)
Ltac alt_inv H :=
  cbn [datetime.match_alt] in H;
  repeat (cbn beta iota in H;
          match type of H with
          | context [match ?s with EmptyString => _ | String _ _ => _ end] =>
              is_var s; destruct s; [discriminate|]
          | context [if ?p ?c then _ else _] =>
              let E := fresh "E" in
              destruct (p c) eqn:E; [|discriminate]
          end);
  cbn beta iota in H; injection H as <- <-.

Lemma day_alt_sound a s cap rest :
  In a datetime.re_d -> datetime.match_alt a s = Some (cap, rest) ->
  exists d, s = cap ++ rest /\ day_field cap = Some d /\ datetime.int cap = Ok d.
Proof.
  unfold datetime.re_d. intros I H. simpl in I.
  repeat (destruct I as [<-|I]; [alt_inv H|]); try contradiction.
  - enum E; enum E0; eexists; repeat split; reflexivity.
  - enum E; enum E0; eexists; repeat split; reflexivity.
  - enum E; enum E0; eexists; repeat split; reflexivity.
  - enum E; eexists; repeat split; reflexivity.
  - enum E; enum E0; eexists; repeat split; reflexivity.
Qed.

Lemma month_alt_sound a s cap rest :
  In a datetime.re_m -> datetime.match_alt a s = Some (cap, rest) ->
  exists m, s = cap ++ rest /\ month_field cap = Some m /\ datetime.int cap = Ok m.
Proof.
  unfold datetime.re_m. intros I H. simpl in I.
  repeat (destruct I as [<-|I]; [alt_inv H|]); try contradiction.
  - enum E; enum E0; eexists; repeat split; reflexivity.
  - enum E; enum E0; eexists; repeat split; reflexivity.
  - enum E; eexists; repeat split; reflexivity.
Qed.

Lemma four_digits_value c1 c2 c3 c4 :
  decimal_digit c1 = true -> decimal_digit c2 = true ->
  decimal_digit c3 = true -> decimal_digit c4 = true ->
  let yyyy := String c1 (String c2 (String c3 (String c4 ""))) in
  exists y, year_field yyyy = Some y /\ datetime.int yyyy = Ok y.
Proof.
  intros H1 H2 H3 H4 yyyy.
  exists (((digit_value c1 * 10 + digit_value c2) * 10 + digit_value c3) * 10
          + digit_value c4).
  unfold yyyy, year_field, number, datetime.int. simpl.
  rewrite (decimal_not_blank _ H1). simpl.
  rewrite !re_digit_decimal, H1, H2, H3, H4. split; reflexivity.
Qed.

Lemma year_alt_sound a s cap rest :
  In a datetime.re_Y -> datetime.match_alt a s = Some (cap, rest) ->
  exists y, s = cap ++ rest /\ year_field cap = Some y /\ datetime.int cap = Ok y.
Proof.
  unfold datetime.re_Y. intros I H.
  destruct I as [<-|[]]. alt_inv H.
  rewrite re_digit_decimal in *.
  destruct (four_digits_value a a0 a1 a2) as [y [Hy Hi]]; auto.
  exists y. repeat split; assumption.
Qed.

(** The last step of the completeness cases: a value outside the range is
    ruled out by arithmetic, the others are run through the matcher. *)
Ltac run_group H R Hk :=
  vm_compute in H; injection H as <-;
  first
    [ exfalso; lia
    | split; [vm_compute; rewrite Hk; reflexivity | reflexivity] ].

Lemma day_group_complete k dd d rest caps unread :
  day_field dd = Some d -> 1 <= d <= 31 ->
  k (String "." rest) = Some (caps, unread) ->
  datetime.match_group k datetime.re_d (dd ++ String "." rest)
  = Some (dd :: caps, unread)
  /\ datetime.int dd = Ok d.
Proof.
  intros H R Hk. destruct dd as [|c1 [|c2 [|c3 dd]]].
  - discriminate.
  - unfold day_field, short_field, number in H. cbn [String.length Nat.leb number_from] in H.
    destruct (decimal_digit c1) eqn:E1; [|discriminate].
    enum E1; run_group H R Hk.
  - unfold day_field in H. destruct (Ascii.eqb_spec c1 " ") as [->|N].
    + unfold number in H. cbn [number_from] in H.
      destruct (decimal_digit c2) eqn:E2; [|discriminate].
      enum E2; run_group H R Hk.
    + unfold short_field, number in H.
      cbn [String.length Nat.leb number_from] in H.
      destruct (decimal_digit c1) eqn:E1; [|discriminate].
      destruct (decimal_digit c2) eqn:E2; [|discriminate].
      enum E1; enum E2; run_group H R Hk.
  - discriminate.
Qed.

Lemma month_group_complete k mm m rest caps unread :
  month_field mm = Some m -> 1 <= m <= 12 ->
  k (String "." rest) = Some (caps, unread) ->
  datetime.match_group k datetime.re_m (mm ++ String "." rest)
  = Some (mm :: caps, unread)
  /\ datetime.int mm = Ok m.
Proof.
  intros H R Hk. unfold month_field, short_field, number in H.
  destruct mm as [|c1 [|c2 [|c3 mm]]]; try discriminate;
    cbn [String.length Nat.leb number_from] in H.
  - destruct (decimal_digit c1) eqn:E1; [|discriminate].
    enum E1; run_group H R Hk.
  - destruct (decimal_digit c1) eqn:E1; [|discriminate].
    destruct (decimal_digit c2) eqn:E2; [|discriminate].
    enum E1; enum E2; run_group H R Hk.
Qed.

Lemma year_group_complete yyyy y :
  year_field yyyy = Some y ->
  datetime.match_group (datetime.match_items []) datetime.re_Y yyyy
  = Some ([yyyy], "")
  /\ datetime.int yyyy = Ok y.
Proof.
  intros H. unfold year_field in H.
  destruct yyyy as [|c1 [|c2 [|c3 [|c4 [|c5 yyyy]]]]]; try discriminate.
  unfold number in H. cbn [String.length Nat.eqb number_from] in H.
  destruct (decimal_digit c1) eqn:E1; [|discriminate].
  destruct (decimal_digit c2) eqn:E2; [|discriminate].
  destruct (decimal_digit c3) eqn:E3; [|discriminate].
  destruct (decimal_digit c4) eqn:E4; [|discriminate].
  injection H as <-. split.
  - unfold datetime.re_Y. cbn [datetime.match_group datetime.match_alt].
    rewrite !re_digit_decimal, E1, E2, E3, E4. reflexivity.
  - unfold datetime.int. cbn [datetime.lstrip].
    rewrite (decimal_not_blank _ E1). cbn [datetime.int_digits].
    rewrite !re_digit_decimal, E1, E2, E3, E4. reflexivity.
Qed.

(** ** The calendar *)

Lemma is_leap_leap_year y : datetime.is_leap y = leap_year y.
Proof.
  unfold datetime.is_leap, leap_year.
  destruct (Z.eqb_spec (y mod 400) 0), (Z.eqb_spec (y mod 100) 0),
    (Z.eqb_spec (y mod 4) 0); simpl; try reflexivity; exfalso;
    Z.to_euclidean_division_equations; lia.
Qed.

Lemma days_in_month_length y m :
  1 <= m <= 12 -> datetime.days_in_month y m = month_length y m.
Proof.
  intros R. unfold datetime.days_in_month. rewrite is_leap_leap_year.
  assert (C : m = 1 \/ m = 2 \/ m = 3 \/ m = 4 \/ m = 5 \/ m = 6 \/ m = 7
              \/ m = 8 \/ m = 9 \/ m = 10 \/ m = 11 \/ m = 12) by lia.
  decompose [or] C; subst; reflexivity.
Qed.

Ltac destruct_match_step :=
  match goal with
  | |- context [match ?x with _ => _ end] => destruct x
  end.

Lemma date_new_real y m d :
  real_date y m d = true -> datetime.date_new y m d = Ok (datetime.mkdate y m d).
Proof.
  unfold real_date, datetime.date_new, datetime.MINYEAR, datetime.MAXYEAR.
  intros H. repeat (apply andb_true_iff in H as [H ?]).
  rewrite days_in_month_length by lia.
  rewrite H, H0, H1, H2, H3, H4. reflexivity.
Qed.

Lemma date_new_Ok y m d dt :
  datetime.date_new y m d = Ok dt ->
  dt = datetime.mkdate y m d /\ real_date y m d = true.
Proof.
  unfold real_date, datetime.date_new, datetime.MINYEAR, datetime.MAXYEAR.
  destruct (1 <=? y) eqn:Y1; [|discriminate].
  destruct (y <=? 9999) eqn:Y2; [|discriminate].
  destruct (1 <=? m) eqn:M1; [|discriminate].
  destruct (m <=? 12) eqn:M2; [|discriminate].
  destruct (1 <=? d) eqn:D1; [|discriminate]. simpl.
  rewrite days_in_month_length by lia.
  destruct (d <=? month_length y m); [|discriminate].
  intros H; injection H as <-. auto.
Qed.

Lemma date_new_raises y m d e :
  datetime.date_new y m d = Raise e -> exists msg, e = ValueError msg.
Proof.
  unfold datetime.date_new.
  repeat match goal with
    | |- context [if ?b then _ else _] => destruct b
    end; intros H; try discriminate; injection H as <-; eauto.
Qed.

Lemma int_raises s e :
  datetime.int s = Raise e -> exists msg, e = ValueError msg.
Proof.
  unfold datetime.int. destruct (datetime.lstrip s).
  - intros H; injection H as <-; eauto.
  - destruct (datetime.int_digits _ _); intros H; [discriminate|].
    injection H as <-; eauto.
Qed.

Lemma strptime_raises s e :
  datetime.strptime_dmY s = Raise e -> exists msg, e = ValueError msg.
Proof.
  unfold datetime.strptime_dmY.
  destruct (datetime.match_items _ s) as [[groups unread]|];
    [|intros H; injection H as <-; eauto].
  destruct (negb _); [intros H; injection H as <-; eauto|].
  destruct groups as [|d [|m [|Y [|x groups]]]];
    try (intros H; injection H as <-; eauto; fail).
  destruct (datetime.int d) eqn:Hd, (datetime.int m) eqn:Hm,
    (datetime.int Y) eqn:HY; intros H;
    try (injection H as <-; eauto using int_raises; fail).
  eauto using date_new_raises.
Qed.

Lemma append_empty (s : string) : s ++ "" = s.
Proof. induction s as [|c s IH]; simpl; congruence. Qed.

Lemma strptime_sound s dt :
  datetime.strptime_dmY s = Ok dt ->
  written_date s (datetime.year dt) (datetime.month dt) (datetime.day dt).
Proof.
  unfold datetime.strptime_dmY.
  destruct (datetime.match_items _ s) as [[groups unread]|] eqn:Hm;
    [|discriminate].
  destruct (String.eqb_spec unread "") as [->|N]; [|discriminate].
  cbn [negb]. unfold datetime.format_dmY in Hm.
  cbn [datetime.match_items] in Hm.
  apply match_group_inv in Hm as (a1 & dd & r1 & caps1 & I1 & A1 & K1 & ->).
  destruct (day_alt_sound _ _ _ _ I1 A1) as (d & -> & Fd & Id).
  cbn [datetime.match_items] in K1.
  destruct r1 as [|c r1]; [discriminate|].
  destruct (Ascii.eqb_spec "." c) as [<-|]; [|discriminate].
  apply match_group_inv in K1 as (a2 & mm & r2 & caps2 & I2 & A2 & K2 & ->).
  destruct (month_alt_sound _ _ _ _ I2 A2) as (m & -> & Fm & Im).
  cbn [datetime.match_items] in K2.
  destruct r2 as [|c r2]; [discriminate|].
  destruct (Ascii.eqb_spec "." c) as [<-|]; [|discriminate].
  apply match_group_inv in K2 as (a3 & yyyy & r3 & caps3 & I3 & A3 & K3 & ->).
  destruct (year_alt_sound _ _ _ _ I3 A3) as (y & -> & Fy & Iy).
  cbn [datetime.match_items] in K3. injection K3 as <- ->.
  rewrite Id, Im, Iy. intros H. apply date_new_Ok in H as [-> Hr].
  exists dd, mm, yyyy. repeat split; auto.
  now rewrite append_empty.
Qed.

Lemma strptime_complete s y m d :
  written_date s y m d ->
  datetime.strptime_dmY s = Ok (datetime.mkdate y m d).
Proof.
  intros (dd & mm & yyyy & -> & Fd & Fm & Fy & Hr).
  assert (R : (1 <= m <= 12) /\ 1 <= d <= 31).
  { unfold real_date in Hr. repeat (apply andb_true_iff in Hr as [Hr ?]).
    assert (month_length y m <= 31)
      by (unfold month_length; repeat destruct_match_step; lia).
    lia. }
  destruct (year_group_complete yyyy y Fy) as [Gy Iy].
  destruct (month_group_complete (datetime.match_items
              [datetime.Lit "."; datetime.Group datetime.re_Y])
              mm m yyyy [yyyy] "" Fm (proj1 R)) as [Gm Im].
  { cbn [datetime.match_items]. rewrite Ascii.eqb_refl. exact Gy. }
  destruct (day_group_complete (datetime.match_items
              [datetime.Lit "."; datetime.Group datetime.re_m;
               datetime.Lit "."; datetime.Group datetime.re_Y])
              dd d (mm ++ String "." yyyy) [mm; yyyy] "" Fd (proj2 R))
    as [Gd Id].
  { cbn [datetime.match_items]. rewrite Ascii.eqb_refl. exact Gm. }
  unfold datetime.strptime_dmY, datetime.format_dmY.
  cbn [datetime.match_items append] in *. rewrite Gd. cbn [String.eqb negb].
  rewrite Id, Im, Iy. now apply date_new_real.
Qed.

(** *** Texts of the strict form *)



Lemma Birthday_init_Ok s v :
  Birthday_init s = Ok v ->
  v = s /\ exists dt, datetime.strptime_dmY s = Ok dt.
Proof.
  unfold Birthday_init. destruct (datetime.strptime_dmY s) as [dt|e].
  - intros H; injection H as <-. eauto.
  - destruct e; discriminate.
Qed.

Lemma Birthday_init_written s y m d :
  written_date s y m d -> Birthday_init s = Ok s.
Proof.
  intros W. unfold Birthday_init. now rewrite (strptime_complete _ _ _ _ W).
Qed.





(** ** Ordinals *)

Lemma real_date_bounds y m d :
  real_date y m d = true ->
  1 <= y <= 9999 /\ 1 <= m <= 12 /\ 1 <= d <= month_length y m.
Proof.
  unfold real_date. intros H. repeat (apply andb_true_iff in H as [H ?]). lia.
Qed.

Lemma month_cases m :
  1 <= m <= 12 ->
  m = 1 \/ m = 2 \/ m = 3 \/ m = 4 \/ m = 5 \/ m = 6 \/ m = 7 \/ m = 8
  \/ m = 9 \/ m = 10 \/ m = 11 \/ m = 12.
Proof. lia. Qed.

(** Look up the month tables at a known month. *)
Ltac eval_tables :=
  repeat match goal with
    | |- context [datetime.index ?l ?k] =>
        let v := eval vm_compute in (datetime.index l k) in
        change (datetime.index l k) with v
    | H : context [datetime.index ?l ?k] |- _ =>
        let v := eval vm_compute in (datetime.index l k) in
        change (datetime.index l k) with v in H
    end.

(** Day of the year: at most 365, or 366 in a leap year. *)
Lemma day_of_year_bounds y m d :
  real_date y m d = true ->
  1 <= datetime.days_before_month y m + d
    <= 365 + (if leap_year y then 1 else 0).
Proof.
  intros H. apply real_date_bounds in H as (_ & Hm & Hd).
  unfold datetime.days_before_month. rewrite is_leap_leap_year.
  destruct (month_cases m Hm) as [E|[E|[E|[E|[E|[E|[E|[E|[E|[E|[E|E]]]]]]]]]]];
    subst m; unfold month_length in Hd; eval_tables;
    destruct (leap_year y); cbn [andb Z.gtb Z.compare Pos.compare Pos.compare_cont] in *; lia.
Qed.

Lemma year_length y :
  datetime.days_before_year (y + 1)
  = datetime.days_before_year y + 365 + (if leap_year y then 1 else 0).
Proof.
  unfold datetime.days_before_year, leap_year.
  replace (y + 1 - 1) with y by lia.
  destruct (Z.eqb_spec (y mod 400) 0), (Z.eqb_spec (y mod 100) 0),
    (Z.eqb_spec (y mod 4) 0);
    Z.to_euclidean_division_equations; lia.
Qed.

Lemma days_before_year_mono y1 y2 :
  y1 <= y2 -> datetime.days_before_year y1 <= datetime.days_before_year y2.
Proof.
  unfold datetime.days_before_year. intros H.
  Z.to_euclidean_division_equations; lia.
Qed.

Lemma toordinal_bounds dt :
  valid dt -> 1 <= datetime.toordinal dt <= datetime.MAXORDINAL.
Proof.
  unfold valid, datetime.toordinal, datetime.ymd2ord. intros H.
  pose proof (day_of_year_bounds _ _ _ H) as D.
  apply real_date_bounds in H as (Hy & _).
  pose proof (year_length (datetime.year dt)) as L.
  pose proof (days_before_year_mono 1 (datetime.year dt) (proj1 Hy)) as L1.
  pose proof (days_before_year_mono (datetime.year dt + 1) 10000) as L2.
  change (datetime.days_before_year 1) with 0 in L1.
  change (datetime.days_before_year 10000) with 3652059 in L2.
  unfold datetime.MAXORDINAL. lia.
Qed.

Lemma month_start_mono y m1 m2 d1 :
  1 <= m1 -> m1 < m2 -> m2 <= 12 -> 1 <= d1 <= month_length y m1 ->
  datetime.days_before_month y m1 + d1 <= datetime.days_before_month y m2.
Proof.
  intros L1 L L2 D. unfold datetime.days_before_month.
  rewrite is_leap_leap_year.
  destruct (month_cases m1 ltac:(lia))
    as [E|[E|[E|[E|[E|[E|[E|[E|[E|[E|[E|E]]]]]]]]]]]; subst m1;
    (destruct (month_cases m2 ltac:(lia))
      as [F|[F|[F|[F|[F|[F|[F|[F|[F|[F|[F|F]]]]]]]]]]]; subst m2;
     try lia;
     unfold month_length in D; eval_tables; destruct (leap_year y);
     cbn [andb Z.gtb Z.compare Pos.compare Pos.compare_cont] in *; lia).
Qed.

(** The calendar order agrees with the day count. *)
Lemma lt_toordinal a b :
  valid a -> valid b -> datetime.lt a b = true ->
  datetime.toordinal a < datetime.toordinal b.
Proof.
  unfold valid, datetime.lt, datetime.toordinal, datetime.ymd2ord.
  destruct a as [ya ma da], b as [yb mb db]; cbn [datetime.year datetime.month datetime.day].
  intros Va Vb H.
  pose proof (day_of_year_bounds _ _ _ Va) as Da.
  pose proof (day_of_year_bounds _ _ _ Vb) as Db.
  apply real_date_bounds in Va as (_ & Ma & Ha).
  apply real_date_bounds in Vb as (_ & Mb & Hb).
  apply orb_true_iff in H as [H|H].
  - apply Z.ltb_lt in H.
    pose proof (year_length ya) as L.
    pose proof (days_before_year_mono (ya + 1) yb ltac:(lia)). lia.
  - apply andb_true_iff in H as [Y H]. apply Z.eqb_eq in Y. subst yb.
    apply orb_true_iff in H as [H|H].
    + apply Z.ltb_lt in H.
      pose proof (month_start_mono ya ma mb da ltac:(lia) H ltac:(lia) Ha).
      lia.
    + apply andb_true_iff in H as [M H]. apply Z.eqb_eq in M. subst mb.
      apply Z.ltb_lt in H. lia.
Qed.

Lemma lt_total a b :
  datetime.lt a b = false -> a = b \/ datetime.lt b a = true.
Proof.
  unfold datetime.lt. destruct a as [ya ma da], b as [yb mb db];
    cbn [datetime.year datetime.month datetime.day]. intros H.
  destruct (Z.ltb_spec ya yb), (Z.eqb_spec ya yb), (Z.ltb_spec ma mb),
    (Z.eqb_spec ma mb), (Z.ltb_spec da db); cbn in H; try discriminate;
    try lia;
    destruct (Z.ltb_spec yb ya), (Z.eqb_spec yb ya), (Z.ltb_spec mb ma),
    (Z.eqb_spec mb ma), (Z.ltb_spec db da); cbn; try lia; auto.
  left. f_equal; lia.
Qed.

Lemma lt_before a b : valid a -> valid b -> datetime.lt a b = before a b.
Proof.
  intros Va Vb. unfold before.
  destruct (datetime.lt a b) eqn:H.
  - symmetry. apply Z.ltb_lt. now apply lt_toordinal.
  - symmetry. apply Z.ltb_ge.
    destruct (lt_total a b H) as [->|H']; [lia|].
    apply lt_toordinal in H'; auto. lia.
Qed.

(** ** The weekend shift *)

Lemma weekday_day_of_week dt :
  valid dt ->
  (datetime.weekday dt = 5 <-> day_of_week dt = Saturday)
  /\ (datetime.weekday dt = 6 <-> day_of_week dt = Sunday)
  /\ (datetime.weekday dt < 5 <->
      day_of_week dt <> Saturday /\ day_of_week dt <> Sunday).
Proof.
  intros V. apply toordinal_bounds in V.
  unfold datetime.weekday, day_of_week.
  set (o := datetime.toordinal dt) in *.
  assert (W : (o + 6) mod 7 = (o - 1) mod 7).
  { Z.to_euclidean_division_equations; lia. }
  rewrite W.
  assert (R : 0 <= (o - 1) mod 7 < 7) by (apply Z.mod_pos_bound; lia).
  generalize dependent ((o - 1) mod 7). intros w _ R.
  assert (C : w = 0 \/ w = 1 \/ w = 2 \/ w = 3 \/ w = 4 \/ w = 5 \/ w = 6)
    by lia.
  destruct C as [E|[E|[E|[E|[E|[E|E]]]]]]; subst w; cbn;
    repeat split; intros; try discriminate; try lia; try reflexivity;
    try (split; discriminate); tauto.
Qed.

Lemma weekend_shift_in_range dt :
  valid dt -> 5 <= datetime.weekday dt ->
  0 < datetime.toordinal dt + (7 - datetime.weekday dt)
    <= datetime.MAXORDINAL.
Proof.
  intros V. apply toordinal_bounds in V. unfold datetime.weekday, datetime.MAXORDINAL in *.
  intros W. Z.to_euclidean_division_equations; lia.
Qed.

Lemma add_days_weekend dt :
  valid dt -> 5 <= datetime.weekday dt ->
  datetime.add_days dt (7 - datetime.weekday dt)
  = Ok (days_later dt (7 - datetime.weekday dt)).
Proof.
  intros V W. unfold datetime.add_days, days_later.
  pose proof (weekend_shift_in_range dt V W) as [L U].
  apply Z.ltb_lt in L. apply Z.leb_le in U. now rewrite L, U.
Qed.

Lemma weekday_range dt : 0 <= datetime.weekday dt < 7.
Proof. unfold datetime.weekday. apply Z.mod_pos_bound. lia. Qed.

(** The shift of the code is the shift by day name. *)
Lemma congratulation_code p :
  valid p ->
  (if datetime.weekday p >=? 5
   then datetime.add_days p (7 - datetime.weekday p)
   else Ok p)
  = Ok (congratulation p).
Proof.
  intros V. pose proof (weekday_day_of_week p V) as (Sat & Sun & Other).
  pose proof (weekday_range p) as R. unfold congratulation.
  destruct (Z.geb_spec (datetime.weekday p) 5) as [G|G].
  - rewrite add_days_weekend by assumption.
    assert (C : datetime.weekday p = 5 \/ datetime.weekday p = 6) by lia.
    destruct C as [E|E]; rewrite E.
    + apply Sat in E. now rewrite E.
    + apply Sun in E. now rewrite E.
  - apply Other in G as [N1 N2].
    destruct (day_of_week p); congruence.
Qed.

(** ** The loop of [get_upcoming_birthdays] *)

Section Upcoming.

Variable today : datetime.date.

Lemma date_new_valid y m d dt : datetime.date_new y m d = Ok dt -> valid dt.
Proof. intros H. apply date_new_Ok in H as [-> H]. exact H. Qed.

Lemma shift_step q (st : list (string * string)) :
  valid q ->
  (if datetime.weekday q >=? 5
   then lift (datetime.add_days q (7 - datetime.weekday q))
   else ret q) st
  = (Ok (congratulation q), st).
Proof.
  intros V. pose proof (congratulation_code q V) as C.
  destruct (datetime.weekday q >=? 5); unfold lift, ret; now rewrite ?C.
Qed.

(** The end of a round, from the projected date [q] on. *)
Lemma upcoming_tail r q (st : list (string * string)) :
  valid q ->
  (let days_diff := datetime.sub_days q today in
   if (0 <=? days_diff) && (days_diff <=? 7)
   then
     congratulate_date <-
       (if datetime.weekday q >=? 5
        then
          let days_to_monday := 7 - datetime.weekday q in
          lift (datetime.add_days q days_to_monday)
        else ret q) ;;
     upcoming <- get ;;
     put (upcoming ++ [(name r, datetime.strftime_dmY congratulate_date)])%list
   else ret tt) st
  = (Ok tt,
     (st ++ (if (0 <=? datetime.toordinal q - datetime.toordinal today)
                && (datetime.toordinal q - datetime.toordinal today <=? 7)
             then [(name r, datetime.strftime_dmY (congratulation q))]
             else []))%list).
Proof.
  intros V. cbv zeta. unfold datetime.sub_days.
  destruct (_ && _).
  - rewrite (bind_ok _ _ _ _ _ (shift_step q st V)). reflexivity.
  - unfold ret. now rewrite app_nil_r.
Qed.

(** One round either goes through or raises a ValueError. *)
Lemma upcoming_body_outcome r st o st' :
  upcoming_body today r st = (o, st') ->
  o = Ok tt \/ exists msg, o = Raise (ValueError msg).
Proof.
  unfold upcoming_body. destruct (birthday r) as [b|];
    [|intros E; injection E as <- <-; now left].
  destruct (Birthday_to_datetime b) as [bd|e] eqn:P.
  2:{ destruct (strptime_raises _ _ P) as [msg ->].
      rewrite (bind_raise _ _ st (ValueError msg) st) by reflexivity.
      intros E; injection E as <- <-. eauto. }
  rewrite (bind_ok _ _ st bd st) by reflexivity.
  destruct (datetime.replace_year bd (datetime.year today)) as [p|e] eqn:N1.
  2:{ destruct (date_new_raises _ _ _ _ N1) as [msg ->].
      rewrite (bind_raise _ _ st (ValueError msg) st) by reflexivity.
      intros E; injection E as <- <-. eauto. }
  rewrite (bind_ok _ _ st p st) by reflexivity.
  pose proof (date_new_valid _ _ _ _ N1) as Vp.
  destruct (datetime.lt p today).
  - destruct (datetime.replace_year p (datetime.year today + 1)) as [q|e] eqn:N2.
    + rewrite (bind_ok _ _ st q st) by reflexivity.
      pose proof (upcoming_tail r q st (date_new_valid _ _ _ _ N2)) as T.
      cbv beta zeta in T |- *. rewrite T.
      intros E; injection E as <- <-. now left.
    + destruct (date_new_raises _ _ _ _ N2) as [msg ->].
      rewrite (bind_raise _ _ st (ValueError msg) st) by reflexivity.
      intros E; injection E as <- <-. eauto.
  - rewrite (bind_ok _ _ st p st) by reflexivity.
    pose proof (upcoming_tail r p st Vp) as T.
    cbv beta zeta in T |- *. rewrite T.
    intros E; injection E as <- <-. now left.
Qed.

(** 29 February does not exist in a year that is not a leap year. *)
Lemma replace_feb29 bd y :
  datetime.month bd = 2 -> datetime.day bd = 29 ->
  datetime.is_leap y = false ->
  exists msg, datetime.replace_year bd y = Raise (ValueError msg).
Proof.
  intros Hm Hd L.
  unfold datetime.replace_year, datetime.date_new, datetime.days_in_month.
  rewrite Hm, Hd, L. destruct (negb _); [eauto|].
  eval_tables. cbn. eauto.
Qed.

(** A birthday on 29 February raises in a reference year that is not a
    leap year. *)
Lemma upcoming_body_feb29 r b bd st :
  birthday r = Some b ->
  Birthday_to_datetime b = Ok bd ->
  datetime.month bd = 2 -> datetime.day bd = 29 ->
  datetime.is_leap (datetime.year today) = false ->
  exists msg, upcoming_body today r st = (Raise (ValueError msg), st).
Proof.
  intros B P Hm Hd L. unfold upcoming_body. rewrite B.
  destruct (replace_feb29 bd _ Hm Hd L) as [msg R]. exists msg.
  rewrite (bind_ok _ _ st bd st) by (unfold lift; now rewrite P).
  apply bind_raise. unfold lift. now rewrite R.
Qed.

Lemma for_each_raises rs r st :
  In r rs ->
  (forall st', exists msg,
      upcoming_body today r st' = (Raise (ValueError msg), st')) ->
  exists msg st',
    for_each rs (upcoming_body today) st = (Raise (ValueError msg), st').
Proof.
  intros I F. revert st. induction rs as [|x rs IH]; [contradiction|].
  intros st. cbn [for_each]. unfold bind at 1.
  destruct I as [->|I].
  - destruct (F st) as [msg ->]. eauto.
  - destruct (upcoming_body today x st) as [o st'] eqn:E.
    destruct (upcoming_body_outcome _ _ _ _ E) as [->|[msg ->]]; eauto.
Qed.

Hypothesis today_valid : valid today.

(** A round on a record whose projection is defined appends what the
    specification says. *)
Lemma upcoming_body_projectable r st :
  projectable today r = true ->
  upcoming_body today r st = (Ok tt, (st ++ upcoming_of today r)%list).
Proof.
  unfold projectable, upcoming_body, upcoming_of.
  destruct (birthday r) as [b|];
    [|intros _; unfold ret; now rewrite app_nil_r].
  destruct (Birthday_to_datetime b) as [bd|e] eqn:P; [|discriminate].
  intros H. apply andb_true_iff in H as [H1 H2].
  unfold exists_in_year in *. unfold projected.
  set (this_year := datetime.mkdate (datetime.year today)
                      (datetime.month bd) (datetime.day bd)) in *.
  rewrite (bind_ok _ _ st bd st) by reflexivity.
  rewrite (bind_ok _ _ st this_year st)
    by (unfold lift, datetime.replace_year; now rewrite (date_new_real _ _ _ H1)).
  assert (V1 : valid this_year) by exact H1.
  rewrite (lt_before _ _ V1 today_valid).
  destruct (before this_year today).
  - set (next_year := datetime.mkdate (datetime.year today + 1)
                        (datetime.month bd) (datetime.day bd)).
    rewrite (bind_ok _ _ st next_year st)
      by (unfold lift, datetime.replace_year, this_year;
          cbn [datetime.month datetime.day];
          now rewrite (date_new_real _ _ _ H2)).
    apply upcoming_tail. exact H2.
  - rewrite (bind_ok _ _ st this_year st) by reflexivity.
    apply upcoming_tail. exact V1.
Qed.

Lemma for_each_projectable rs st :
  forallb (projectable today) rs = true ->
  for_each rs (upcoming_body today) st
  = (Ok tt, (st ++ flat_map (upcoming_of today) rs)%list).
Proof.
  revert st. induction rs as [|r rs IH]; intros st H.
  - cbn. unfold ret. now rewrite app_nil_r.
  - cbn [forallb] in H. apply andb_true_iff in H as [Hr Hrs].
    cbn [for_each flat_map].
    rewrite (bind_ok _ _ _ _ _ (upcoming_body_projectable r st Hr)).
    rewrite (IH _ Hrs). now rewrite app_assoc.
Qed.

Lemma date_new_not_real y m d :
  real_date y m d = false ->
  exists msg, datetime.date_new y m d = Raise (ValueError msg).
Proof.
  intros H. destruct (datetime.date_new y m d) as [dt|e] eqn:N.
  - apply date_new_Ok in N as [_ R]. congruence.
  - destruct (date_new_raises _ _ _ _ N) as [msg ->]. eauto.
Qed.

(** A round on a record whose projection is not defined raises. *)
Lemma upcoming_body_not_projectable r st :
  projectable today r = false ->
  exists msg, upcoming_body today r st = (Raise (ValueError msg), st).
Proof.
  unfold projectable, upcoming_body.
  destruct (birthday r) as [b|]; [|discriminate].
  destruct (Birthday_to_datetime b) as [bd|e] eqn:P.
  2:{ intros _. destruct (strptime_raises _ _ P) as [msg ->]. exists msg.
      now apply bind_raise. }
  intros H. rewrite (bind_ok _ _ st bd st) by reflexivity.
  unfold exists_in_year in H.
  destruct (real_date (datetime.year today) (datetime.month bd)
              (datetime.day bd)) eqn:R1.
  - cbn [andb] in H.
    set (this_year := datetime.mkdate (datetime.year today)
                        (datetime.month bd) (datetime.day bd)) in *.
    rewrite (bind_ok _ _ st this_year st)
      by (unfold lift, datetime.replace_year;
          now rewrite (date_new_real _ _ _ R1)).
    rewrite (lt_before this_year today R1 today_valid).
    destruct (before this_year today); [|discriminate].
    destruct (date_new_not_real _ _ _ H) as [msg N]. exists msg.
    apply bind_raise. unfold lift, datetime.replace_year, this_year.
    cbn [datetime.month datetime.day]. now rewrite N.
  - destruct (date_new_not_real _ _ _ R1) as [msg N]. exists msg.
    apply bind_raise. unfold lift, datetime.replace_year. now rewrite N.
Qed.

Lemma for_each_not_projectable rs st :
  forallb (projectable today) rs = false ->
  exists msg st',
    for_each rs (upcoming_body today) st = (Raise (ValueError msg), st').
Proof.
  intros H.
  assert (E : exists r, In r rs /\ projectable today r = false).
  { induction rs as [|x rs IH]; [discriminate|].
    cbn [forallb] in H. apply andb_false_iff in H as [H|H].
    - exists x. split; [now left | exact H].
    - destruct (IH H) as (r & I & F). exists r. split; [now right | exact F]. }
  destruct E as (r & I & F).
  apply (for_each_raises rs r st I).
  intros st'. now apply upcoming_body_not_projectable.
Qed.
End Upcoming.
(** ** Ordinals back and forth *)

Lemma month_estimate r (leap : bool) :
  0 <= r < 365 ->
  let month := Z.shiftr (r + 50) 5 in
  let preceding :=
    datetime.index datetime.DAYS_BEFORE_MONTH month
    + (if (month >? 2) && leap then 1 else 0) in
  (preceding >? r) = true ->
  datetime.index datetime.DAYS_BEFORE_MONTH (month - 1)
  + (if (month - 1 >? 2) && leap then 1 else 0)
  = preceding
    - (datetime.index datetime.DAYS_IN_MONTH (month - 1)
       + (if (month - 1 =? 2) && leap then 1 else 0)).
Proof.
  intros R month preceding. subst preceding.
  assert (M : 1 <= month <= 12).
  { subst month. rewrite Z.shiftr_div_pow2 by lia. change (2 ^ 5) with 32.
    Z.to_euclidean_division_equations; lia. }
  assert (E : r + 50 = 32 * month + (r + 50) mod 32 /\ 0 <= (r + 50) mod 32 < 32).
  { subst month. rewrite Z.shiftr_div_pow2 by lia. change (2 ^ 5) with 32.
    split; [apply Z.div_mod; lia | apply Z.mod_pos_bound; lia]. }
  clearbody month.
  destruct (month_cases month M)
    as [F|[F|[F|[F|[F|[F|[F|[F|[F|[F|[F|F]]]]]]]]]]]; subst month;
    cbn [Z.sub Z.add Z.opp Z.pos_sub Pos.pred_double Pos.add Pos.succ Z.succ_double Z.pred_double Z.double]; eval_tables; destruct leap;
    cbn [andb Z.gtb Z.eqb Pos.eqb Z.compare Pos.compare Pos.compare_cont];
    intros G; try reflexivity; try apply Z.gtb_lt in G; try lia.
Qed.
Lemma ymd2ord_ord2ymd n :
  1 <= n ->
  (let '(y, m, d) := datetime.ord2ymd n in datetime.ymd2ord y m d) = n.
Proof.
  intros Hn. unfold datetime.ord2ymd, datetime.DI400Y, datetime.DI100Y, datetime.DI4Y.
  cbv zeta.
  set (n0 := n - 1).
  set (q := n0 / 146097). set (r1 := n0 mod 146097).
  set (n100 := r1 / 36524). set (r2 := r1 mod 36524).
  set (n4 := r2 / 1461). set (r3 := r2 mod 1461).
  set (n1 := r3 / 365). set (r4 := r3 mod 365).
  assert (F1 : n0 = 146097 * q + r1 /\ 0 <= r1 < 146097)
    by (split; [apply Z.div_mod; lia | apply Z.mod_pos_bound; lia]).
  assert (F2 : r1 = 36524 * n100 + r2 /\ 0 <= r2 < 36524)
    by (split; [apply Z.div_mod; lia | apply Z.mod_pos_bound; lia]).
  assert (F3 : r2 = 1461 * n4 + r3 /\ 0 <= r3 < 1461)
    by (split; [apply Z.div_mod; lia | apply Z.mod_pos_bound; lia]).
  assert (F4 : r3 = 365 * n1 + r4 /\ 0 <= r4 < 365)
    by (split; [apply Z.div_mod; lia | apply Z.mod_pos_bound; lia]).
  assert (Q : 0 <= q) by (apply Z.div_pos; lia).
  clearbody q r1 n100 r2 n4 r3 n1 r4.
  assert (B100 : 0 <= n100 <= 4) by lia.
  assert (B4 : 0 <= n4 <= 24) by lia.
  assert (B1 : 0 <= n1 <= 4) by lia.
  set (year := q * 400 + 1 + (n100 * 100 + n4 * 4 + n1)).
  set (leapyear := (n1 =? 3) && (negb (n4 =? 24) || (n100 =? 3))).
  destruct ((n1 =? 4) || (n100 =? 4)) eqn:Special.
  - apply orb_true_iff in Special.
    unfold datetime.ymd2ord, datetime.days_before_year,
      datetime.days_before_month, datetime.is_leap.
    eval_tables. subst year n0.
    destruct (Z.eqb_spec ((q * 400 + 1 + (n100 * 100 + n4 * 4 + n1) - 1) mod 4) 0),
      (Z.eqb_spec ((q * 400 + 1 + (n100 * 100 + n4 * 4 + n1) - 1) mod 100) 0),
      (Z.eqb_spec ((q * 400 + 1 + (n100 * 100 + n4 * 4 + n1) - 1) mod 400) 0);
      cbn [andb orb negb Z.gtb Z.compare Pos.compare Pos.compare_cont];
      destruct Special as [S|S]; apply Z.eqb_eq in S;
      Z.to_euclidean_division_equations; lia.
  - apply orb_false_iff in Special as [S1 S100].
    apply Z.eqb_neq in S1. apply Z.eqb_neq in S100.
    assert (Hleap : leapyear = datetime.is_leap year).
    { unfold leapyear, datetime.is_leap, year.
      destruct (Z.eqb_spec n1 3), (Z.eqb_spec n4 24), (Z.eqb_spec n100 3),
        (Z.eqb_spec ((q * 400 + 1 + (n100 * 100 + n4 * 4 + n1)) mod 4) 0),
        (Z.eqb_spec ((q * 400 + 1 + (n100 * 100 + n4 * 4 + n1)) mod 100) 0),
        (Z.eqb_spec ((q * 400 + 1 + (n100 * 100 + n4 * 4 + n1)) mod 400) 0);
        cbn [andb orb negb]; try reflexivity; exfalso;
        Z.to_euclidean_division_equations; lia. }
    assert (Hyear : datetime.days_before_year year = n0 - r4).
    { unfold datetime.days_before_year, year. subst n0.
      Z.to_euclidean_division_equations; lia. }
    pose proof (month_estimate r4 leapyear (proj2 F4)) as Est.
    cbv zeta in Est.
    destruct (_ >? r4) eqn:G.
    + specialize (Est eq_refl).
      unfold datetime.ymd2ord, datetime.days_before_month.
      rewrite <- Hleap, Hyear. subst n0. lia.
    + unfold datetime.ymd2ord, datetime.days_before_month.
      rewrite <- Hleap, Hyear. subst n0. lia.
Qed.

Lemma toordinal_fromordinal n :
  1 <= n -> datetime.toordinal (datetime.fromordinal n) = n.
Proof.
  intros H. pose proof (ymd2ord_ord2ymd n H) as R.
  unfold datetime.fromordinal, datetime.toordinal.
  destruct (datetime.ord2ymd n) as [[y m] d]. exact R.
Qed.

Lemma day_of_week_Monday dt :
  (datetime.toordinal dt - 1) mod 7 = 0 -> day_of_week dt = Monday.
Proof. unfold day_of_week. intros ->. reflexivity. Qed.

(** A Saturday or Sunday is moved to the Monday that follows. *)
Lemma congratulation_Monday p :
  valid p ->
  (day_of_week p = Saturday ->
   day_of_week (congratulation p) = Monday
   /\ datetime.toordinal (congratulation p) = datetime.toordinal p + 2)
  /\ (day_of_week p = Sunday ->
      day_of_week (congratulation p) = Monday
      /\ datetime.toordinal (congratulation p) = datetime.toordinal p + 1).
Proof.
  intros V. pose proof (weekday_day_of_week p V) as (Sat & Sun & _).
  pose proof (toordinal_bounds p V) as B.
  unfold congratulation, days_later.
  split; intros D; rewrite D.
  - apply Sat in D. unfold datetime.weekday in D.
    rewrite toordinal_fromordinal by lia.
    split; [apply day_of_week_Monday|reflexivity].
    rewrite toordinal_fromordinal by lia.
    Z.to_euclidean_division_equations; lia.
  - apply Sun in D. unfold datetime.weekday in D.
    rewrite toordinal_fromordinal by lia.
    split; [apply day_of_week_Monday|reflexivity].
    rewrite toordinal_fromordinal by lia.
    Z.to_euclidean_division_equations; lia.
Qed.

(** A birthday whose month and day are today's projects onto today. *)
Lemma projected_today today bday :
  datetime.month bday = datetime.month today ->
  datetime.day bday = datetime.day today ->
  projected today bday = today.
Proof.
  intros Hm Hd. unfold projected. rewrite Hm, Hd.
  destruct today as [y m d]; cbn [datetime.year datetime.month datetime.day].
  unfold before. now rewrite Z.ltb_irrefl.
Qed.

(** C1: where the code departs from the claim.  The claim promises the
    list for every book; the query returns it only when the projection of
    every birthday of the book is defined.  Then the result holds, in the
    order of the book, one entry for each record with a birthday whose
    projected date (the birthday's month and day in the reference year, or
    in the next year if that date is before the reference date) is 0 to 7
    days after the reference date; the entry carries the record's name and
    the projected date, moved on from a Saturday by two days and from a
    Sunday by one day, which is the Monday that follows; a birthday on the
    reference date itself is included.  When the projection of one
    birthday is not defined (29 February and a year that is not a leap
    year: [replace] has no case for it), the query raises a ValueError and
    lists no record at all, not even those the claim expects in the
    list. *)
Theorem C1_upcoming_birthdays (today : datetime.date) (book : AddressBook) :
  valid today ->
  (forallb (projectable today) (values book) = true ->
   AddressBook_get_upcoming_birthdays today book
   = Ok (upcoming_spec today book))
  /\ (forallb (projectable today) (values book) = false ->
      exists msg,
        AddressBook_get_upcoming_birthdays today book
        = Raise (ValueError msg))
  /\ (forall p, valid p -> day_of_week p = Saturday ->
        day_of_week (congratulation p) = Monday
        /\ datetime.toordinal (congratulation p) = datetime.toordinal p + 2)
  /\ (forall p, valid p -> day_of_week p = Sunday ->
        day_of_week (congratulation p) = Monday
        /\ datetime.toordinal (congratulation p) = datetime.toordinal p + 1)
  /\ (forall r b bday,
        birthday r = Some b -> Birthday_to_datetime b = Ok bday ->
        datetime.month bday = datetime.month today ->
        datetime.day bday = datetime.day today ->
        upcoming_of today r
        = [(name r, datetime.strftime_dmY (congratulation today))]).
Proof.
  intros V. split; [|split; [|split; [|split]]].
  - intros P. unfold AddressBook_get_upcoming_birthdays, upcoming_spec.
    now rewrite (for_each_projectable today V _ [] P).
  - intros P. unfold AddressBook_get_upcoming_birthdays.
    destruct (for_each_not_projectable today V _ [] P) as (msg & st' & ->).
    eauto.
  - intros p Vp. apply (congratulation_Monday p Vp).
  - intros p Vp. apply (congratulation_Monday p Vp).
  - intros r b bday B Pb Hm Hd. unfold upcoming_of.
    rewrite B, Pb, (projected_today _ _ Hm Hd), Z.sub_diag. reflexivity.
Qed.

Lemma C1_upcoming_birthdays_witness :
  AddressBook_get_upcoming_birthdays (datetime.mkdate 2024 6 10)
    [("alice", mkRecord "alice" ["1234567890"] (Some "15.06.1990"));
     ("bob", mkRecord "bob" [] (Some "10.06.1985"));
     ("carol", mkRecord "carol" ["0987654321"] None);
     ("dave", mkRecord "dave" [] (Some "1.1.2000"))]
  = Ok [("alice", "17.06.2024"); ("bob", "10.06.2024")]
  /\ (exists msg,
        AddressBook_get_upcoming_birthdays (datetime.mkdate 2023 6 10)
          [("alice", mkRecord "alice" ["1234567890"] (Some "15.06.1990"));
           ("bob", mkRecord "bob" [] (Some "29.02.2000"))]
        = Raise (ValueError msg))
  /\ upcoming_spec (datetime.mkdate 2023 6 10)
       [("alice", mkRecord "alice" ["1234567890"] (Some "15.06.1990"));
        ("bob", mkRecord "bob" [] (Some "29.02.2000"))]
     = [("alice", "15.06.2023")].
Proof.
  split; [|split].
  - apply (C1_upcoming_birthdays (datetime.mkdate 2024 6 10)
             [("alice", mkRecord "alice" ["1234567890"] (Some "15.06.1990"));
              ("bob", mkRecord "bob" [] (Some "10.06.1985"));
              ("carol", mkRecord "carol" ["0987654321"] None);
              ("dave", mkRecord "dave" [] (Some "1.1.2000"))]);
      reflexivity.
  - apply (proj1 (proj2
             (C1_upcoming_birthdays (datetime.mkdate 2023 6 10)
                [("alice",
                  mkRecord "alice" ["1234567890"] (Some "15.06.1990"));
                 ("bob", mkRecord "bob" [] (Some "29.02.2000"))]
                eq_refl))).
    reflexivity.
  - reflexivity.
Defined.

(** C10: with a record born on 29 February in the book and a reference
    year that is not a leap year, the query raises a ValueError instead of
    returning, and [birthdays] answers with the decorator's reply for
    ValueError, leaving the book as it was. *)
Theorem C10_feb29_raises (today : datetime.date) (book : AddressBook)
    (r : record) (b : string) (bday : datetime.date) (args : list string) :
  In r (values book) ->
  birthday r = Some b ->
  Birthday_to_datetime b = Ok bday ->
  datetime.month bday = 2 -> datetime.day bday = 29 ->
  datetime.is_leap (datetime.year today) = false ->
  datetime.is_leap (datetime.year bday) = true
  /\ (exists msg,
        AddressBook_get_upcoming_birthdays today book
        = Raise (ValueError msg))
  /\ birthdays today args book
     = (Ok "Give me name and phone please.", book).
Proof.
  intros I B P Hm Hd L.
  assert (R : exists msg,
             AddressBook_get_upcoming_birthdays today book
             = Raise (ValueError msg)).
  { unfold AddressBook_get_upcoming_birthdays.
    destruct (for_each_raises today (values book) r [] I) as (msg & st' & E).
    - intros st'. eapply upcoming_body_feb29; eassumption.
    - rewrite E. eauto. }
  split; [|split; [exact R|]].
  - apply strptime_sound in P as (dd & mm & yyyy & _ & _ & _ & _ & Hr).
    apply real_date_bounds in Hr as (_ & _ & Hday).
    rewrite Hm, Hd in Hday. rewrite is_leap_leap_year.
    unfold month_length in Hday. destruct (leap_year _); [reflexivity | lia].
  - destruct R as [msg R].
    unfold birthdays, input_error, try_except, birthdays_wrapped, bind, get,
      lift. now rewrite R.
Qed.

Lemma C10_feb29_raises_witness :
  birthdays (datetime.mkdate 2023 6 10) []
    [("alice", mkRecord "alice" ["1234567890"] (Some "15.06.1990"));
     ("bob", mkRecord "bob" [] (Some "29.02.2000"))]
  = (Ok "Give me name and phone please.",
     [("alice", mkRecord "alice" ["1234567890"] (Some "15.06.1990"));
      ("bob", mkRecord "bob" [] (Some "29.02.2000"))]).
Proof.
  apply (C10_feb29_raises (datetime.mkdate 2023 6 10) _
           (mkRecord "bob" [] (Some "29.02.2000")) "29.02.2000"
           (datetime.mkdate 2000 2 29) []);
    try reflexivity.
  simpl. tauto.
Defined.

(** * Beyond the claims *)

(** ** Records keep their invariant *)

Lemma list_remove_In x q l : In x (list_remove q l) -> In x l.
Proof.
  induction l as [|y l IH]; simpl; [tauto|].
  destruct (y =? q)%string; simpl; tauto.
Qed.

Lemma list_remove_NoDup q l : NoDup l -> NoDup (list_remove q l).
Proof.
  induction 1 as [|y l N D IH]; simpl; [constructor|].
  destruct (y =? q)%string; [assumption|].
  constructor; [|assumption]. intros I. apply N. eapply list_remove_In, I.
Qed.

Lemma list_remove_Forall (P : string -> Prop) q l :
  Forall P l -> Forall P (list_remove q l).
Proof.
  rewrite !Forall_forall. intros H x I. eapply H, list_remove_In, I.
Qed.

Lemma add_phone_keeps p : keeps_record (Record_add_phone p).
Proof.
  intros r o r'. unfold Record_add_phone, bind, get, raise, lift, put.
  destruct (Record_find_phone p r) eqn:F.
  - intros E; injection E as <- <-. tauto.
  - destruct (Phone_init p) as [v|e] eqn:V.
    + intros E; injection E as <- <-. split; [reflexivity|].
      apply Phone_init_value in V as Ev. subst v.
      intros (Hv & Hd & Hb). repeat split; cbn [phones birthday set_phones].
      * apply Forall_app. split; [assumption | now constructor].
      * apply find_phone_None in F. apply NoDup_app; auto.
        -- repeat constructor. simpl. tauto.
        -- intros x I [<-|[]]. contradiction.
      * exact Hb.
    + intros E; injection E as <- <-. tauto.
Qed.

Lemma remove_phone_keeps p : keeps_record (Record_remove_phone p).
Proof.
  intros r o r'. unfold Record_remove_phone, bind, get, raise, put.
  destruct (Record_find_phone p r) eqn:F.
  - intros E; injection E as <- <-. split; [reflexivity|].
    intros (Hv & Hd & Hb). repeat split; cbn [phones birthday set_phones];
      auto using list_remove_Forall, list_remove_NoDup.
  - intros E; injection E as <- <-. tauto.
Qed.

Lemma bind_keeps {A B} (m : M record A) (k : A -> M record B) :
  keeps_record m -> (forall a, keeps_record (k a)) -> keeps_record (bind m k).
Proof.
  intros Hm Hk r o r'. unfold bind.
  destruct (m r) as [[a|e] r1] eqn:E.
  - intros E2. destruct (Hm _ _ _ E) as [N1 I1].
    destruct (Hk a _ _ _ E2) as [N2 I2]. split; [congruence | tauto].
  - intros E2; injection E2 as <- <-. exact (Hm _ _ _ E).
Qed.

Lemma edit_phone_keeps old new : keeps_record (Record_edit_phone old new).
Proof.
  intros r o r'. unfold Record_edit_phone. unfold bind at 1, get.
  destruct (Record_find_phone new r).
  - unfold raise. intros E; injection E as <- <-. tauto.
  - apply (bind_keeps _ _ (add_phone_keeps new)
             (fun _ => remove_phone_keeps old)).
Qed.

Lemma add_birthday_keeps b : keeps_record (Record_add_birthday b).
Proof.
  intros r o r'. unfold Record_add_birthday, bind, lift, get, put.
  destruct (Birthday_init b) as [v|e] eqn:V.
  - intros E; injection E as <- <-. split; [reflexivity|].
    apply Birthday_init_Ok in V as [-> [dt P]].
    intros (Hv & Hd & _). repeat split; cbn [phones birthday set_birthday];
      eauto.
  - intros E; injection E as <- <-. tauto.
Qed.

(** ** The dictionary keeps the invariant of the book *)

Lemma dict_get_In key (book : AddressBook) r :
  dict_get key book = Some r -> In (key, r) book.
Proof.
  induction book as [|[k v] book IH]; simpl; [discriminate|].
  destruct (String.eqb_spec k key) as [->|N].
  - intros E; injection E as ->. now left.
  - intros E. right. auto.
Qed.

Lemma dict_get_None key (book : AddressBook) :
  dict_get key book = None <-> ~ In key (map fst book).
Proof.
  induction book as [|[k v] book IH]; simpl; [tauto|].
  destruct (String.eqb_spec k key) as [->|N].
  - split; [discriminate | intros H; exfalso; apply H; now left].
  - rewrite IH. split; [intros H [E|I]; congruence | tauto].
Qed.

Lemma dict_set_keys key v (book : AddressBook) r :
  dict_get key book = Some r -> map fst (dict_set key v book) = map fst book.
Proof.
  induction book as [|[k w] book IH]; simpl; [discriminate|].
  destruct (k =? key)%string; simpl; [reflexivity|].
  intros E. now rewrite IH.
Qed.

Lemma dict_set_In key v (book : AddressBook) k w :
  In (k, w) (dict_set key v book) -> (k, w) = (key, v) \/ In (k, w) book.
Proof.
  induction book as [|[k' w'] book IH]; simpl.
  - intros [E|[]]. left. congruence.
  - destruct (String.eqb_spec k' key) as [->|N]; simpl.
    + intros [E|I]; [left; congruence | tauto].
    + intros [E|I]; [tauto | destruct (IH I); tauto].
Qed.

Lemma book_ok_get key book r :
  book_ok book -> dict_get key book = Some r -> name r = key /\ record_ok r.
Proof.
  intros [_ F] G. apply dict_get_In in G.
  rewrite Forall_forall in F. exact (F _ G).
Qed.

Lemma book_ok_set key v book :
  book_ok book -> name v = key -> record_ok v ->
  book_ok (dict_set key v book).
Proof.
  intros [D F] N R. split.
  - destruct (dict_get key book) as [r|] eqn:G.
    + now rewrite (dict_set_keys _ _ _ _ G).
    + rewrite (dict_set_fresh _ _ _ G), map_app. simpl.
      apply dict_get_None in G. apply NoDup_app; auto.
      * repeat constructor. simpl. tauto.
      * intros x I [<-|[]]. contradiction.
  - rewrite Forall_forall in *. intros [k w] I.
    apply dict_set_In in I as [E|I]; [|exact (F _ I)].
    injection E as -> ->. simpl. tauto.
Qed.

Lemma book_ok_del key book : book_ok book -> book_ok (dict_del key book).
Proof.
  intros [D F]. unfold dict_del. split.
  - clear F. induction book as [|[k w] book IH]; simpl; [constructor|].
    inversion D as [|? ? Hn Hd]; subst.
    destruct (negb (k =? key)%string); simpl; auto.
    constructor; auto. intros I. apply Hn.
    apply in_map_iff in I as [[k' w'] [E I]]. apply filter_In in I as [I _].
    apply in_map_iff. exists (k', w'). tauto.
  - rewrite Forall_forall in *. intros kv I. apply filter_In in I as [I _].
    exact (F _ I).
Qed.

Lemma book_ok_on_record {A} key (m : M record A) book o book' :
  keeps_record m -> book_ok book ->
  on_record key m book = (o, book') -> book_ok book'.
Proof.
  intros K B. unfold on_record.
  destruct (dict_get key book) as [r|] eqn:G.
  - destruct (m r) as [o1 r'] eqn:E. intros H; injection H as <- <-.
    destruct (K _ _ _ E) as [N I].
    destruct (book_ok_get _ _ _ B G) as [Nr Rr].
    apply book_ok_set; [assumption | congruence | tauto].
  - intros H; injection H as <- <-. assumption.
Qed.

(** ** Commands keep the invariant of the book *)

Section KeepsBook.

Context {A B : Type}.

Lemma ret_keeps (a : A) : keeps_book (ret a).
Proof. intros book o book' H E. injection E as <- <-. exact H. Qed.

Lemma raise_keeps (e : exn) : keeps_book (@raise AddressBook A e).
Proof. intros book o book' H E. injection E as <- <-. exact H. Qed.

Lemma lift_keeps (x : outcome A) : keeps_book (lift x).
Proof. intros book o book' H E. injection E as <- <-. exact H. Qed.

Lemma bind_keeps_book (m : M AddressBook A) (k : A -> M AddressBook B) :
  keeps_book m -> (forall a, keeps_book (k a)) -> keeps_book (bind m k).
Proof.
  intros Hm Hk book o book' H. unfold bind.
  destruct (m book) as [[a|e] b1] eqn:E.
  - apply Hk. eapply Hm; eassumption.
  - intros E2; injection E2 as <- <-. eapply Hm; eassumption.
Qed.

(** Code that first reads the book may rely on what it read. *)
Lemma get_bind_keeps (k : AddressBook -> M AddressBook B) :
  (forall book, book_ok book ->
     forall o book', k book book = (o, book') -> book_ok book') ->
  keeps_book (bind get k).
Proof. intros Hk book o book' H. unfold bind, get. now apply Hk. Qed.

Lemma try_except_keeps (m : M AddressBook A) h :
  keeps_book m ->
  (forall e handler, h e = Some handler -> keeps_book handler) ->
  keeps_book (try_except m h).
Proof.
  intros Hm Hh book o book' H. unfold try_except.
  destruct (m book) as [[a|e] b1] eqn:E.
  - intros E2; injection E2 as <- <-. eapply Hm; eassumption.
  - destruct (h e) as [handler|] eqn:F.
    + apply (Hh _ _ F). eapply Hm; eassumption.
    + intros E2; injection E2 as <- <-. eapply Hm; eassumption.
Qed.

End KeepsBook.

Lemma on_record_keeps {A} key (m : M record A) :
  keeps_record m -> keeps_book (on_record key m).
Proof. intros K book o book' H E. eapply book_ok_on_record; eassumption. Qed.

Lemma input_error_keeps {A} (func : A -> M AddressBook string) x :
  keeps_book (func x) -> keeps_book (input_error func x).
Proof.
  intros H. unfold input_error. apply try_except_keeps; [exact H|].
  intros e handler E. destruct e; try discriminate;
    injection E as <-; apply ret_keeps.
Qed.

Lemma except_ValueError_keeps e handler :
  except_ValueError_as_str e = Some handler -> keeps_book handler.
Proof.
  destruct e; try discriminate. intros E; injection E as <-. apply ret_keeps.
Qed.

Lemma Record_init_ok nm : record_ok (Record_init nm).
Proof. repeat split; simpl; constructor. Qed.

Lemma add_record_keeps r :
  record_ok r -> keeps_book (AddressBook_add_record r).
Proof.
  intros R book o book' H E. injection E as <- <-.
  now apply book_ok_set.
Qed.

Lemma delete_keeps nm : keeps_book (AddressBook_delete nm).
Proof.
  intros book o book' H. unfold AddressBook_delete.
  destruct (dict_get nm book); intros E; injection E as <- <-;
    auto using book_ok_del.
Qed.

Lemma get_keeps : keeps_book (@get AddressBook).
Proof. intros book o book' H E. injection E as <- <-. exact H. Qed.

Lemma put_keeps book : book_ok book -> keeps_book (put book).
Proof. intros H b o b' _ E. injection E as <- <-. exact H. Qed.

(** The structure of a command, taken apart. *)
Ltac keeps :=
  repeat first
    [ apply input_error_keeps
    | apply ret_keeps
    | apply raise_keeps
    | apply lift_keeps
    | apply get_keeps
    | apply delete_keeps
    | apply except_ValueError_keeps
    | apply on_record_keeps
    | apply add_phone_keeps
    | apply remove_phone_keeps
    | apply edit_phone_keeps
    | apply add_birthday_keeps
    | apply try_except_keeps
    | apply bind_keeps_book
    | progress intros
    | match goal with
      | |- keeps_book (let '(_, _) := ?x in _) => destruct x
      | |- keeps_book (match ?x with _ => _ end) => destruct x
      | |- keeps_book (if ?x then _ else _) => destruct x
      end ].

Lemma add_contact_keeps args : keeps_book (add_contact args).
Proof.
  unfold add_contact, add_contact_wrapped. keeps.
  apply add_record_keeps, Record_init_ok.
Qed.

Lemma change_contact_keeps args : keeps_book (change_contact args).
Proof. unfold change_contact, change_contact_wrapped. keeps. Qed.

Lemma remove_phone_command_keeps args :
  keeps_book (remove_phone_command args).
Proof.
  unfold remove_phone_command, remove_phone_command_wrapped.
  apply input_error_keeps.
  apply bind_keeps_book; [apply lift_keeps|]. intros [nm phone].
  apply bind_keeps_book; [apply get_keeps|]. intros contacts.
  destruct (dict_get nm contacts); [|apply raise_keeps].
  apply try_except_keeps; [|apply except_ValueError_keeps].
  apply bind_keeps_book;
    [apply on_record_keeps, remove_phone_keeps|]. intros _.
  apply get_bind_keeps. intros book H o book'.
  destruct (option_map phones (dict_get nm book)) as [[|p l]|].
  - unfold bind, put, ret. intros E; injection E as <- <-.
    now apply book_ok_del.
  - intros E; injection E as <- <-. exact H.
  - intros E; injection E as <- <-. exact H.
Qed.

Lemma delet_keeps args : keeps_book (delet args).
Proof. unfold delet, delet_wrapped. keeps. Qed.

Lemma add_birthday_keeps_book args : keeps_book (add_birthday args).
Proof. unfold add_birthday, add_birthday_wrapped. keeps. Qed.

(** ** Commands that only read *)

Lemma show_phone_reads args : reads_only (show_phone args).
Proof.
  intros book. unfold show_phone, input_error, show_phone_wrapped,
    try_except, bind, lift, get, raise, ret.
  destruct (item0 args) as [nm|[]]; try reflexivity.
  destruct (dict_get nm book); reflexivity.
Qed.

Lemma show_all_reads : reads_only show_all.
Proof. intros book. now rewrite show_all_lists. Qed.

Lemma show_birthday_reads args : reads_only (show_birthday args).
Proof.
  intros book. unfold show_birthday, input_error, show_birthday_wrapped,
    try_except, bind, lift, get, raise, ret, AddressBook_find.
  destruct (item0 args) as [nm|[]]; try reflexivity.
  destruct (dict_get nm book) as [r|]; [|reflexivity].
  destruct (birthday r); reflexivity.
Qed.

Lemma birthdays_reads today args : reads_only (birthdays today args).
Proof.
  intros book. unfold birthdays, input_error, birthdays_wrapped,
    try_except, bind, lift, get, ret.
  destruct (AddressBook_get_upcoming_birthdays today book) as [[|x l]|[]];
    reflexivity.
Qed.

Lemma reads_only_keeps {A} (m : M AddressBook A) :
  reads_only m -> keeps_book m.
Proof.
  intros R book o book' H E. specialize (R book). rewrite E in R.
  simpl in R. now subst.
Qed.

Lemma dispatch_keeps today command args :
  keeps_book (dispatch today command args).
Proof.
  unfold dispatch.
  repeat match goal with
    | |- keeps_book (if ?b then _ else _) => destruct b
    end;
    auto using ret_keeps, add_contact_keeps, change_contact_keeps,
      remove_phone_command_keeps, delet_keeps, add_birthday_keeps_book,
      reads_only_keeps, show_phone_reads, show_all_reads,
      show_birthday_reads, birthdays_reads.
Qed.

(** X1: every branch of the dispatch keeps the invariant of the book: no
    name twice, every record stored under its own name, every phone valid
    and none twice in a record, every birthday a text that parses;
    whatever the command, its arguments and its outcome. *)
Theorem dispatch_keeps_book today command args book o book' :
  book_ok book ->
  dispatch today command args book = (o, book') ->
  book_ok book'.
Proof. intros H E. eapply dispatch_keeps; eassumption. Qed.

Lemma dispatch_keeps_book_witness :
  book_ok [("alice", mkRecord "alice" ["1234567890"] None)].
Proof.
  apply (dispatch_keeps_book (datetime.mkdate 2024 6 10) "add"
           ["alice"; "1234567890"] [] (Ok "Contact added.")).
  - split; constructor.
  - reflexivity.
Defined.

(** ** No exception escapes a command *)

Section RaisesCaught.

Context {S A B : Type}.

Lemma ret_caught (a : A) : raises_caught (@ret S A a).
Proof. intros s e s' E. discriminate. Qed.

Lemma get_caught : raises_caught (@get S).
Proof. intros s e s' E. discriminate. Qed.

Lemma put_caught (x : S) : raises_caught (put x).
Proof. intros s e s' E. discriminate. Qed.

Lemma raise_caught (e : exn) : caught e -> raises_caught (@raise S A e).
Proof. intros C s e' s' E. injection E as <- <-. exact C. Qed.

Lemma lift_caught (x : outcome A) :
  (forall e, x = Raise e -> caught e) -> raises_caught (@lift S A x).
Proof. intros C s e s' E. injection E as -> <-. now apply C. Qed.

Lemma bind_caught (m : M S A) (k : A -> M S B) :
  raises_caught m -> (forall a, raises_caught (k a)) ->
  raises_caught (bind m k).
Proof.
  intros Hm Hk s e s'. unfold bind.
  destruct (m s) as [[a|e1] s1] eqn:E.
  - apply Hk.
  - intros E2; injection E2 as <- <-. eapply Hm, E.
Qed.

Lemma try_except_caught (m : M S A) h :
  raises_caught m ->
  (forall e handler, h e = Some handler -> raises_caught handler) ->
  raises_caught (try_except m h).
Proof.
  intros Hm Hh s e s'. unfold try_except.
  destruct (m s) as [[a|e1] s1] eqn:E; [discriminate|].
  destruct (h e1) as [handler|] eqn:F.
  - apply (Hh _ _ F).
  - intros E2; injection E2 as <- <-. eapply Hm, E.
Qed.

End RaisesCaught.

Lemma on_record_caught {A} key (m : M record A) :
  raises_caught m -> raises_caught (on_record key m).
Proof.
  intros Hm book e book'. unfold on_record.
  destruct (dict_get key book) as [r|].
  - destruct (m r) as [o r'] eqn:E. intros E2; injection E2 as -> <-.
    eapply Hm, E.
  - intros E2; injection E2 as <- <-. exact I.
Qed.

Lemma Phone_init_caught p e : Phone_init p = Raise e -> caught e.
Proof.
  unfold Phone_init. destruct (_ && _); [discriminate|].
  intros E; injection E as <-. exact I.
Qed.

Lemma Birthday_init_caught b e : Birthday_init b = Raise e -> caught e.
Proof.
  unfold Birthday_init.
  destruct (datetime.strptime_dmY b) as [dt|e1] eqn:P; [discriminate|].
  destruct (strptime_raises _ _ P) as [msg ->].
  intros E; injection E as <-. exact I.
Qed.

Lemma unpack2_caught args e : unpack2 args = Raise e -> caught e.
Proof.
  destruct args as [|a [|b [|c l]]]; simpl; intros E; try discriminate;
    injection E as <-; exact I.
Qed.

Lemma unpack3_caught args e : unpack3 args = Raise e -> caught e.
Proof.
  destruct args as [|a [|b [|c [|d l]]]]; simpl; intros E; try discriminate;
    injection E as <-; exact I.
Qed.

Lemma item0_caught args e : item0 args = Raise e -> caught e.
Proof.
  destruct args; simpl; intros E; [|discriminate].
  injection E as <-; exact I.
Qed.

Lemma for_each_outcome today rs st o st' :
  for_each rs (upcoming_body today) st = (o, st') ->
  o = Ok tt \/ exists msg, o = Raise (ValueError msg).
Proof.
  revert st. induction rs as [|r rs IH]; intros st.
  - intros E; injection E as <- <-. now left.
  - cbn [for_each]. unfold bind at 1.
    destruct (upcoming_body today r st) as [o1 st1] eqn:E.
    destruct (upcoming_body_outcome _ _ _ _ _ E) as [->|[msg ->]].
    + apply IH.
    + intros E2; injection E2 as <- <-. eauto.
Qed.

(** The query raises nothing but ValueError. *)
Lemma get_upcoming_birthdays_caught today book e :
  AddressBook_get_upcoming_birthdays today book = Raise e ->
  exists msg, e = ValueError msg.
Proof.
  unfold AddressBook_get_upcoming_birthdays.
  destruct (for_each _ _ _) as [o st'] eqn:E.
  destruct (for_each_outcome _ _ _ _ _ E) as [->|[msg ->]]; [discriminate|].
  intros E2; injection E2 as <-. eauto.
Qed.

Ltac caught_step :=
  first
    [ apply ret_caught
    | apply get_caught
    | apply put_caught
    | apply raise_caught; exact I
    | apply lift_caught;
      first [ apply unpack2_caught | apply unpack3_caught | apply item0_caught
            | apply Phone_init_caught | apply Birthday_init_caught ]
    | apply on_record_caught
    | apply try_except_caught
    | apply bind_caught
    | progress intros
    | match goal with
      | |- raises_caught (match ?x with _ => _ end) => destruct x
      | |- raises_caught (if ?x then _ else _) => destruct x
      | H : except_ValueError_as_str ?e = Some _ |- _ =>
          destruct e; try discriminate; injection H as <-
      end ].

Ltac caught_all := repeat caught_step.

Lemma add_phone_caught p : raises_caught (Record_add_phone p).
Proof. unfold Record_add_phone. caught_all. Qed.

Lemma remove_phone_caught p : raises_caught (Record_remove_phone p).
Proof. unfold Record_remove_phone. caught_all. Qed.

Lemma edit_phone_caught old new : raises_caught (Record_edit_phone old new).
Proof.
  unfold Record_edit_phone. caught_all;
    auto using add_phone_caught, remove_phone_caught.
Qed.

Lemma add_birthday_caught b : raises_caught (Record_add_birthday b).
Proof. unfold Record_add_birthday. caught_all. Qed.

Lemma delete_caught nm : raises_caught (AddressBook_delete nm).
Proof.
  intros book e book'. unfold AddressBook_delete.
  destruct (dict_get nm book); intros E; [discriminate|].
  injection E as <- <-. exact I.
Qed.

(** What the decorator makes of a function that raises nothing else. *)
Lemma input_error_replies {A} (func : A -> M AddressBook string) x book :
  raises_caught (func x) ->
  exists message book', input_error func x book = (Ok message, book').
Proof.
  intros C. unfold input_error, try_except.
  destruct (func x book) as [[message|e] book'] eqn:E; [eauto|].
  specialize (C _ _ _ E). destruct e; try contradiction; unfold ret; eauto.
Qed.

Lemma add_record_caught r : raises_caught (AddressBook_add_record r).
Proof. intros book e book' E. discriminate. Qed.

Lemma add_contact_wrapped_caught args : raises_caught (add_contact_wrapped args).
Proof.
  unfold add_contact_wrapped. caught_all;
    auto using add_phone_caught, add_record_caught.
Qed.

Lemma change_contact_wrapped_caught args :
  raises_caught (change_contact_wrapped args).
Proof.
  unfold change_contact_wrapped. caught_all; apply edit_phone_caught.
Qed.

Lemma show_phone_wrapped_caught args : raises_caught (show_phone_wrapped args).
Proof. unfold show_phone_wrapped. caught_all. Qed.

Lemma show_all_wrapped_caught u : raises_caught (show_all_wrapped u).
Proof. unfold show_all_wrapped. caught_all. Qed.

Lemma remove_phone_command_wrapped_caught args :
  raises_caught (remove_phone_command_wrapped args).
Proof.
  unfold remove_phone_command_wrapped. caught_all; apply remove_phone_caught.
Qed.

Lemma delet_wrapped_caught args : raises_caught (delet_wrapped args).
Proof. unfold delet_wrapped. caught_all. apply delete_caught. Qed.

Lemma add_birthday_wrapped_caught args :
  raises_caught (add_birthday_wrapped args).
Proof.
  unfold add_birthday_wrapped. caught_all; apply add_birthday_caught.
Qed.

Lemma show_birthday_wrapped_caught args :
  raises_caught (show_birthday_wrapped args).
Proof. unfold show_birthday_wrapped. caught_all. Qed.

Lemma birthdays_wrapped_caught today args :
  raises_caught (birthdays_wrapped today args).
Proof.
  unfold birthdays_wrapped.
  apply bind_caught; [apply get_caught|]. intros book.
  apply bind_caught; [|caught_all].
  apply lift_caught. intros e E.
  apply get_upcoming_birthdays_caught in E as [msg ->]. exact I.
Qed.

Lemma dispatch_replies today command args book :
  exists message book',
    dispatch today command args book = (Ok message, book').
Proof.
  unfold dispatch, add_contact, change_contact, show_phone, show_all, delet,
    add_birthday, show_birthday, birthdays, remove_phone_command.
  repeat match goal with
    | |- context [if ?b then _ else _] => destruct b
    end;
    try (unfold ret; eauto; fail);
    apply input_error_replies;
    auto using add_contact_wrapped_caught, change_contact_wrapped_caught,
      show_phone_wrapped_caught, show_all_wrapped_caught,
      remove_phone_command_wrapped_caught, delet_wrapped_caught,
      add_birthday_wrapped_caught, show_birthday_wrapped_caught,
      birthdays_wrapped_caught.
Qed.

(** X2: no exception escapes a command: whatever the command, the
    arguments and the book, the dispatch returns a message.  In
    particular the weekend shift of [get_upcoming_birthdays] never
    leaves the range of dates. *)
Theorem dispatch_always_replies today command args book :
  exists message book',
    dispatch today command args book = (Ok message, book').
Proof. apply dispatch_replies. Qed.

(** ** Words of a line *)

Lemma is_empty_true s : is_empty s = true <-> s = "".
Proof. destruct s; simpl; split; congruence. Qed.

Lemma append_not_empty w c : is_empty (w ++ String c "") = false.
Proof. destruct w; reflexivity. Qed.

Lemma split_from_nil w s :
  split_from w s = [] <-> w = "" /\ all_chars isspace_char s = true.
Proof.
  revert w. induction s as [|c s IH]; intros w; simpl.
  - destruct w; simpl; split; try tauto; try discriminate.
    intros [E _]. discriminate.
  - destruct (isspace_char c); simpl.
    + destruct w; simpl.
      * rewrite IH. tauto.
      * split; [discriminate | intros [E _]; discriminate].
    + rewrite IH. split; [|intros [_ E]; discriminate].
      intros [E _]. destruct w; discriminate.
Qed.

Lemma lstrip_split s : split (str_lstrip s) = split s.
Proof.
  unfold split. induction s as [|c s IH]; simpl; [reflexivity|].
  destruct (isspace_char c) eqn:E; simpl; [exact IH | now rewrite E].
Qed.

Lemma rstrip_split w s : split_from w (str_rstrip s) = split_from w s.
Proof.
  revert w. induction s as [|c s IH]; intros w; simpl; [reflexivity|].
  destruct (is_empty (str_rstrip s)) eqn:E, (isspace_char c) eqn:Sp; simpl;
    rewrite ?Sp, ?IH; try reflexivity.
  apply is_empty_true in E.
  assert (N : split_from "" s = []) by (rewrite <- IH, E; reflexivity).
  rewrite N. destruct (is_empty w); reflexivity.
Qed.

Lemma strip_split s : split (strip s) = split s.
Proof. unfold strip, split. rewrite rstrip_split. apply lstrip_split. Qed.

Lemma lstrip_blank s : all_chars isspace_char s = true -> str_lstrip s = "".
Proof.
  induction s as [|c s IH]; simpl; [reflexivity|].
  destruct (isspace_char c); [exact IH | discriminate].
Qed.

Lemma strip_blank s :
  is_empty (strip s) = true <-> all_chars isspace_char s = true.
Proof.
  split.
  - intros E. apply is_empty_true in E.
    pose proof (strip_split s) as H. rewrite E in H. symmetry in H.
    now apply split_from_nil in H.
  - intros B. unfold strip. now rewrite (lstrip_blank _ B).
Qed.

Lemma split_from_words w s :
  all_chars (fun c => negb (isspace_char c)) w = true ->
  Forall word (split_from w s).
Proof.
  revert w. induction s as [|c s IH]; intros w Hw; simpl.
  - destruct w; simpl; constructor; [|constructor].
    split; [discriminate | exact Hw].
  - destruct (isspace_char c) eqn:Sp.
    + destruct w; simpl; [now apply IH|].
      constructor; [split; [discriminate | exact Hw] | now apply IH].
    + apply IH. clear IH. induction w as [|x w IHw]; simpl in *.
      * now rewrite Sp.
      * apply andb_true_iff in Hw as [H1 H2]. now rewrite H1, IHw.
Qed.

Lemma split_words s : Forall word (split s).
Proof. now apply split_from_words. Qed.

Lemma rstrip_word w :
  all_chars (fun c => negb (isspace_char c)) w = true -> str_rstrip w = w.
Proof.
  induction w as [|c w IH]; simpl; [reflexivity|].
  intros H. apply andb_true_iff in H as [H1 H2]. rewrite (IH H2).
  apply negb_true_iff in H1. rewrite H1, andb_false_r. reflexivity.
Qed.

(** [strip] does nothing to a word. *)
Lemma strip_word w : word w -> strip w = w.
Proof.
  intros [N H]. unfold strip. destruct w as [|c w]; [reflexivity|].
  simpl in *. apply andb_true_iff in H as [H1 H2].
  apply negb_true_iff in H1 as H1'. rewrite H1'.
  change (str_rstrip (String c w) = String c w).
  apply rstrip_word. simpl. now rewrite H1, H2.
Qed.

Lemma lower_char_idem c : lower_char (lower_char c) = lower_char c.
Proof. destruct c as [[] [] [] [] [] [] [] []]; reflexivity. Qed.

Lemma lower_idem s : lower (lower s) = lower s.
Proof.
  induction s as [|c s IH]; simpl; [reflexivity|].
  now rewrite lower_char_idem, IH.
Qed.

Lemma lower_char_space c : isspace_char (lower_char c) = isspace_char c.
Proof. destruct c as [[] [] [] [] [] [] [] []]; reflexivity. Qed.

Lemma lower_word w : word w -> word (lower w).
Proof.
  intros [N H]. split; [destruct w; [contradiction | discriminate]|].
  clear N. induction w as [|c w IH]; simpl in *; [reflexivity|].
  apply andb_true_iff in H as [H1 H2].
  now rewrite lower_char_space, H1, IH.
Qed.

Lemma append_char w c x : (w ++ String c "") ++ x = w ++ String c x.
Proof. induction w as [|d w IH]; simpl; congruence. Qed.

Lemma split_from_word w x s :
  all_chars (fun c => negb (isspace_char c)) x = true ->
  split_from w (x ++ s) = split_from (w ++ x) s.
Proof.
  revert w. induction x as [|c x IH]; intros w H; simpl.
  - now rewrite append_empty.
  - simpl in H. apply andb_true_iff in H as [H1 H2].
    apply negb_true_iff in H1. rewrite H1, (IH _ H2).
    now rewrite append_char.
Qed.

(** Words joined by single blanks are read back as they were. *)
Lemma split_join ws : Forall word ws -> split (join " " ws) = ws.
Proof.
  unfold split. induction 1 as [|x ws [N H] F IH]; [reflexivity|].
  destruct ws as [|y ws].
  - cbn [join]. rewrite <- (append_empty x) at 1.
    rewrite (split_from_word _ _ _ H). simpl.
    destruct x; [contradiction | reflexivity].
  - change (join " " (x :: y :: ws)) with (x ++ String " " (join " " (y :: ws))).
    rewrite (split_from_word _ _ _ H). cbn [append split_from].
    change (isspace_char " ") with true. cbn iota.
    destruct x; [contradiction|]. cbn [is_empty]. now rewrite IH.
Qed.

(** ** [parse_input] *)

Lemma parse_input_strip s :
  (is_empty (strip s) = true <-> all_chars isspace_char s = true)
  /\ ((exists e, parse_input s = Raise e) <-> all_chars isspace_char s = true)
  /\ parse_input (strip s) = parse_input s.
Proof.
  split; [apply strip_blank|]. split.
  - unfold parse_input. destruct (split s) as [|cmd args] eqn:E.
    + apply split_from_nil in E as [_ E]. split; eauto.
    + split; [intros [e H]; discriminate|]. intros B.
      assert (N : split s = []) by (apply split_from_nil; auto).
      congruence.
  - unfold parse_input. now rewrite strip_split.
Qed.

(** X7: [parse_input] raises exactly on the lines made of white space
    only (the empty line among them), and these are the lines whose
    [strip] is empty, which [main] answers itself; stripping a line does
    not change what [parse_input] returns. *)
Theorem parse_input_blank s :
  (is_empty (strip s) = true <-> all_chars isspace_char s = true)
  /\ ((exists e, parse_input s = Raise e) <-> all_chars isspace_char s = true)
  /\ parse_input (strip s) = parse_input s.
Proof. apply parse_input_strip. Qed.

(** X8: when [parse_input] returns, the command is the first word of the
    line in lower case, the arguments are the other words as written, and
    none of them is empty or holds white space. *)
Theorem parse_input_words s command args :
  parse_input s = Ok (command, args) ->
  exists cmd,
    split s = cmd :: args
    /\ command = lower cmd
    /\ lower command = command
    /\ Forall word (command :: args).
Proof.
  unfold parse_input. pose proof (split_words s) as W.
  destruct (split s) as [|cmd l]; [discriminate|].
  inversion W as [|? ? Wc Wa]; subst.
  intros E; injection E as <- <-. rewrite (strip_word _ Wc).
  exists cmd. repeat split; auto using lower_idem.
  constructor; auto using lower_word.
Qed.

Lemma parse_input_words_witness :
  exists cmd,
    split "ADD Alice 123" = cmd :: ["Alice"; "123"]
    /\ "add" = lower cmd
    /\ lower "add" = "add"
    /\ Forall word ("add" :: ["Alice"; "123"]).
Proof.
  apply (parse_input_words "ADD Alice 123" "add" ["Alice"; "123"]).
  reflexivity.
Defined.

(** X9: a command and its arguments joined by single blanks are read
    back by [parse_input]: the command in lower case, the arguments
    unchanged. *)
Theorem parse_input_join cmd args :
  Forall word (cmd :: args) ->
  parse_input (join " " (cmd :: args)) = Ok (lower cmd, args).
Proof.
  intros W. unfold parse_input. rewrite (split_join _ W).
  inversion W; subst. now rewrite strip_word.
Qed.

Lemma parse_input_join_witness :
  parse_input (join " " ["Add"; "alice"]) = Ok (lower "Add", ["alice"]).
Proof.
  apply (parse_input_join "Add" ["alice"]).
  repeat constructor; try discriminate.
Defined.

(** ** The session *)

Lemma parse_input_not_blank line :
  is_empty (strip line) = false ->
  exists command args, parse_input (strip line) = Ok (command, args).
Proof.
  intros N. destruct (parse_input_strip line) as (B & R & ->).
  destruct (parse_input line) as [[command args]|e] eqn:P; [eauto|].
  assert (H : is_empty (strip line) = true) by (apply B, R; eauto).
  congruence.
Qed.

Lemma parse_input_Ok_not_blank line command args :
  parse_input (strip line) = Ok (command, args) ->
  is_empty (strip line) = false.
Proof.
  intros P. destruct (is_empty (strip line)) eqn:E; [|reflexivity].
  apply is_empty_true in E. rewrite E in P. discriminate.
Qed.

Lemma main_loop_run inputs book :
  run inputs book (fst (main_loop inputs book)) (snd (main_loop inputs book)).
Proof.
  revert book. induction inputs as [|[today line] inputs IH]; intros book.
  - constructor.
  - cbn [main_loop]. cbv zeta.
    destruct (is_empty (strip line)) eqn:B.
    + specialize (IH book). destruct (main_loop inputs book) as [shown e].
      now constructor.
    + destruct (parse_input_not_blank line B) as (command & args & P).
      rewrite P. destruct (String.eqb_spec command "exit") as [->|N].
      * econstructor. eassumption.
      * destruct (dispatch_replies today command args book)
          as (message & book' & D).
        rewrite D. specialize (IH book').
        destruct (main_loop inputs book') as [shown e].
        econstructor; eassumption.
Qed.

(** X3: a session never ends on an exception of the program: whatever
    the lines and the book loaded, [main] runs until [exit] or until the
    input ends. *)
Theorem main_never_crashes inputs book e :
  snd (main inputs book) <> Crashed e.
Proof.
  unfold main. pose proof (main_loop_run inputs book) as R.
  destruct (main_loop inputs book) as [shown e']. simpl in *.
  induction R; auto; discriminate.
Qed.

(** X4: the book a session saves at [exit] satisfies the invariant of
    the book whenever the book it loaded does, whatever was typed. *)
Theorem main_saves_ok_book inputs book saved :
  book_ok book ->
  snd (main inputs book) = Saved saved ->
  book_ok saved.
Proof.
  unfold main. pose proof (main_loop_run inputs book) as R.
  destruct (main_loop inputs book) as [shown e]. simpl in *.
  induction R; intros Hok E; try discriminate; auto.
  - now injection E as <-.
  - apply IHR; auto. eapply dispatch_keeps; eassumption.
Qed.

Lemma main_saves_ok_book_witness :
  book_ok [("alice", mkRecord "alice" ["1234567890"] None)].
Proof.
  apply (main_saves_ok_book
           [(datetime.mkdate 2024 6 10, "add alice 1234567890");
            (datetime.mkdate 2024 6 10, "exit")] []).
  - split; constructor.
  - reflexivity.
Defined.

(** X5: every line read is answered by exactly one message: a session
    that reaches the end of the input has displayed the welcome and one
    message per line; a session ended by [exit] has "Good bye!" as its
    last message and no more messages than that. *)
Theorem main_one_message_per_line inputs book :
  (snd (main inputs book) = EndOfInput ->
   List.length (fst (main inputs book)) = S (List.length inputs))
  /\ (forall saved, snd (main inputs book) = Saved saved ->
      last (fst (main inputs book)) "" = "Good bye!"
      /\ (List.length (fst (main inputs book)) <= S (List.length inputs))%nat).
Proof.
  unfold main. pose proof (main_loop_run inputs book) as R.
  destruct (main_loop inputs book) as [shown e]. cbn [fst snd] in *.
  assert (G : (e = EndOfInput -> List.length shown = List.length inputs)
              /\ (forall saved, e = Saved saved ->
                  last shown "" = "Good bye!"
                  /\ shown <> []
                  /\ (List.length shown <= List.length inputs)%nat)).
  { induction R.
    - split; [reflexivity | discriminate].
    - destruct IHR as [I1 I2]. split.
      + intros E. simpl. now rewrite I1.
      + intros saved E. destruct (I2 _ E) as (L & N & Le).
        repeat split; [|discriminate | simpl; lia].
        destruct shown; [contradiction | exact L].
    - split; [discriminate|]. intros saved _.
      repeat split; [discriminate | simpl; lia].
    - destruct IHR as [I1 I2]. split.
      + intros E. simpl. now rewrite I1.
      + intros saved E. destruct (I2 _ E) as (L & N & Le).
        repeat split; [|discriminate | simpl; lia].
        destruct shown; [contradiction | exact L]. }
  destruct G as [G1 G2]. split.
  - intros E. simpl. now rewrite G1.
  - intros saved E. destruct (G2 _ E) as (L & N & Le). split.
    + destruct shown; [contradiction | exact L].
    + simpl. lia.
Qed.

Lemma main_loop_exit_saves before today line after book args :
  parse_input (strip line) = Ok ("exit", args) ->
  Forall not_exit before ->
  main_loop (before ++ (today, line) :: after) book
  = (fst (main_loop (before ++ (today, line) :: after) book),
     Saved (fold_left line_effect before book)).
Proof.
  intros P N. pose proof (parse_input_Ok_not_blank _ _ _ P) as B.
  revert book. induction N as [|[d l] before Nl N IH]; intros book.
  - cbn [app main_loop fold_left]. cbv zeta. rewrite B, P. reflexivity.
  - cbn [app main_loop fold_left]. cbv zeta. unfold line_effect at 2.
    cbn [fst snd]. unfold not_exit in Nl. cbn [snd] in Nl.
    destruct (is_empty (strip l)) eqn:Bl.
    + destruct (parse_input (strip l)) as [[command a]|e] eqn:Pl.
      { apply parse_input_Ok_not_blank in Pl. congruence. }
      rewrite (IH book) at 1.
      destruct (main_loop _ book) as [shown e']. reflexivity.
    + destruct (parse_input_not_blank l Bl) as (command & a & Pl).
      rewrite Pl.
      destruct (String.eqb_spec command "exit") as [->|_];
        [now destruct (Nl a)|].
      destruct (dispatch_replies d command a book)
        as (message & book' & D).
      rewrite D. cbn [snd]. rewrite (IH book') at 1.
      destruct (main_loop _ book') as [shown e']. reflexivity.
Qed.

(** X6: a line whose first word is [exit], in any case and with any
    arguments, ends the session: the lines after it are not read, and the
    book that is saved at the first such line is the book of the session
    at that line, which is the loaded book after the commands of the
    lines typed before it, one after the other. *)
Theorem exit_ends_session before today line after book args :
  parse_input (strip line) = Ok ("exit", args) ->
  main (before ++ (today, line) :: after) book
  = main (before ++ [(today, line)]) book
  /\ (exists saved, snd (main (before ++ (today, line) :: after) book)
                    = Saved saved)
  /\ (Forall not_exit before ->
      snd (main (before ++ (today, line) :: after) book)
      = Saved (fold_left line_effect before book)).
Proof.
  intros P. pose proof (parse_input_Ok_not_blank _ _ _ P) as B.
  unfold main.
  assert (G : main_loop (before ++ (today, line) :: after) book
              = main_loop (before ++ [(today, line)]) book
              /\ exists saved,
                   snd (main_loop (before ++ (today, line) :: after) book)
                   = Saved saved).
  { revert book. induction before as [|[d l] before IH]; intros book.
    - cbn [app main_loop]. cbv zeta. rewrite B, P. cbn. eauto.
    - cbn [app main_loop]. cbv zeta.
      destruct (is_empty (strip l)) eqn:Bl.
      + destruct (IH book) as [-> [saved S]].
        destruct (main_loop _ book) as [shown e]. cbn in *. eauto.
      + destruct (parse_input_not_blank l Bl) as (command & a & Pl).
        rewrite Pl. destruct (command =? "exit")%string; [cbn; eauto|].
        destruct (dispatch_replies d command a book)
          as (message & book' & D).
        rewrite D. destruct (IH book') as [-> [saved S]].
        destruct (main_loop _ book') as [shown e]. cbn in *. eauto. }
  split; [|split].
  - destruct G as [-> _]. reflexivity.
  - destruct G as [_ [saved S]].
    destruct (main_loop (before ++ (today, line) :: after) book)
      as [shown e]. cbn in *. eauto.
  - intros N.
    rewrite (main_loop_exit_saves before today line after book args P N).
    reflexivity.
Qed.

Lemma exit_ends_session_witness :
  snd (main ([(datetime.mkdate 2024 6 10, "add alice 1234567890");
              (datetime.mkdate 2024 6 10, "hello")]
               ++ (datetime.mkdate 2024 6 10, " EXIT now")
                  :: [(datetime.mkdate 2024 6 10, "add bob 0987654321")])
         [("carol", mkRecord "carol" [] None)])
  = Saved [("carol", mkRecord "carol" [] None);
           ("alice", mkRecord "alice" ["1234567890"] None)].
Proof.
  apply (proj2 (proj2
           (exit_ends_session
              [(datetime.mkdate 2024 6 10, "add alice 1234567890");
               (datetime.mkdate 2024 6 10, "hello")]
              (datetime.mkdate 2024 6 10) " EXIT now"
              [(datetime.mkdate 2024 6 10, "add bob 0987654321")]
              [("carol", mkRecord "carol" [] None)] ["now"] eq_refl))).
  repeat constructor; intros args; vm_compute; discriminate.
Defined.

(** ** The book as a dictionary *)

Lemma dict_get_set_other key k v (book : AddressBook) :
  k <> key -> dict_get k (dict_set key v book) = dict_get k book.
Proof.
  intros N. induction book as [|[k' w] book IH]; simpl.
  - destruct (String.eqb_spec key k); congruence.
  - destruct (String.eqb_spec k' key) as [->|N']; simpl.
    + destruct (String.eqb_spec key k); congruence.
    + destruct (k' =? k)%string; auto.
Qed.

Lemma dict_get_del_other key k (book : AddressBook) :
  k <> key -> dict_get k (dict_del key book) = dict_get k book.
Proof.
  intros N. induction book as [|[k' w] book IH]; simpl; [reflexivity|].
  destruct (String.eqb_spec k' key) as [->|N']; simpl.
  - destruct (String.eqb_spec key k); congruence.
  - now rewrite IH.
Qed.

(** X11: [add_record] stores the record under its own name: [find]
    returns it, the other names are untouched, a name already there is
    overwritten in place and a new one goes to the end; [delete] of that
    name then succeeds, after which [find] returns nothing for it and
    what it returned before for the others. *)
Theorem add_record_find_delete (book : AddressBook) (r : record) :
  let book' := snd (AddressBook_add_record r book) in
  AddressBook_find (name r) book' = Some r
  /\ (forall k, k <> name r ->
        AddressBook_find k book' = AddressBook_find k book)
  /\ (forall old, AddressBook_find (name r) book = Some old ->
        map fst book' = map fst book)
  /\ (AddressBook_find (name r) book = None ->
        book' = (book ++ [(name r, r)])%list)
  /\ (exists book'',
        AddressBook_delete (name r) book' = (Ok tt, book'')
        /\ AddressBook_find (name r) book'' = None
        /\ forall k, k <> name r ->
             AddressBook_find k book'' = AddressBook_find k book).
Proof.
  unfold AddressBook_add_record, AddressBook_find, AddressBook_delete.
  cbn [snd]. repeat split.
  - apply dict_get_set_same.
  - intros k N. now apply dict_get_set_other.
  - intros old G. eapply dict_set_keys, G.
  - intros G. now apply dict_set_fresh.
  - rewrite dict_get_set_same. eexists. repeat split.
    + apply dict_get_del.
    + intros k N. rewrite dict_get_del_other by assumption.
      now apply dict_get_set_other.
Qed.

(** ** [delet] *)

(** X12: [delet] uses its first argument only; on a name of the book it
    removes the entry, whatever phones it holds, says so, and leaves the
    other entries; on another name it answers "Contact not found." and
    changes nothing. *)
Theorem delet_command (book : AddressBook) (nm : string) (more : list string) :
  (forall r, AddressBook_find nm book = Some r ->
     delet (nm :: more) book
     = (Ok ("Contact <" ++ nm ++ "> deleted."), dict_del nm book)
     /\ AddressBook_find nm (dict_del nm book) = None
     /\ forall k, k <> nm ->
          AddressBook_find k (dict_del nm book) = AddressBook_find k book)
  /\ (AddressBook_find nm book = None ->
      delet (nm :: more) book = (Ok "Contact not found.", book)).
Proof.
  unfold AddressBook_find. split.
  - intros r G. repeat split.
    + unfold delet, input_error, delet_wrapped, try_except, bind, lift,
        AddressBook_delete. cbn [item0]. now rewrite G.
    + apply dict_get_del.
    + intros k N. now apply dict_get_del_other.
  - intros G. unfold delet, input_error, delet_wrapped, try_except, bind, lift,
      AddressBook_delete. cbn [item0]. now rewrite G.
Qed.

Lemma delet_command_witness :
  delet ["alice"; "now"]
    [("alice", mkRecord "alice" ["1234567890"] None);
     ("bob", mkRecord "bob" [] None)]
  = (Ok ("Contact <" ++ "alice" ++ "> deleted."),
     dict_del "alice"
       [("alice", mkRecord "alice" ["1234567890"] None);
        ("bob", mkRecord "bob" [] None)]).
Proof.
  apply (proj1 (delet_command _ "alice" ["now"])
           (mkRecord "alice" ["1234567890"] None)).
  reflexivity.
Defined.

(** ** [phone] *)

(** X13: [phone] uses its first argument only; it answers with the
    phones of the contact joined by "; ", or with "Contact not found.",
    and never changes the book. *)
Theorem show_phone_command (book : AddressBook) (nm : string)
    (more : list string) :
  (forall r, dict_get nm book = Some r ->
     show_phone (nm :: more) book = (Ok (join "; " (phones r)), book))
  /\ (dict_get nm book = None ->
      show_phone (nm :: more) book = (Ok "Contact not found.", book)).
Proof.
  split; [intros r G | intros G];
    unfold show_phone, input_error, show_phone_wrapped, try_except, bind,
      lift, get; cbn [item0]; now rewrite G.
Qed.

Lemma show_phone_command_witness :
  show_phone ["alice"]
    [("alice", mkRecord "alice" ["1234567890"; "0987654321"] None)]
  = (Ok (join "; " ["1234567890"; "0987654321"]),
     [("alice", mkRecord "alice" ["1234567890"; "0987654321"] None)]).
Proof.
  apply (proj1 (show_phone_command _ "alice" [])
           (mkRecord "alice" ["1234567890"; "0987654321"] None)).
  reflexivity.
Defined.

(** ** [add-birthday] and [show-birthday] *)

(** X14: on a contact of the book, [add-birthday] with a text that
    parses replaces the birthday, whatever it was, and [show-birthday]
    then answers with that text; with a text that does not parse it
    answers with the decorator's reply for ValueError and changes
    nothing; [show-birthday] on a contact without birthday answers
    "Contact not found.". *)
Theorem birthday_commands (book : AddressBook) (nm d : string) (r : record) :
  AddressBook_find nm book = Some r ->
  (forall dt, Birthday_to_datetime d = Ok dt ->
     add_birthday [nm; d] book
     = (Ok "Birthday added.", dict_set nm (set_birthday r (Some d)) book)
     /\ show_birthday [nm] (dict_set nm (set_birthday r (Some d)) book)
        = (Ok d, dict_set nm (set_birthday r (Some d)) book))
  /\ ((forall dt, Birthday_to_datetime d <> Ok dt) ->
      add_birthday [nm; d] book = (Ok "Give me name and phone please.", book))
  /\ (birthday r = None ->
      show_birthday [nm] book = (Ok "Contact not found.", book)).
Proof.
  unfold AddressBook_find. intros G. split; [|split].
  - intros dt P.
    assert (B : Birthday_init d = Ok d)
      by (unfold Birthday_init; unfold Birthday_to_datetime in P;
          now rewrite P).
    split.
    + unfold add_birthday, input_error, add_birthday_wrapped, try_except,
        bind, lift, get, AddressBook_find. cbn. rewrite G.
      unfold on_record. rewrite G.
      unfold Record_add_birthday, bind, lift, get, put. now rewrite B.
    + unfold show_birthday, input_error, show_birthday_wrapped, try_except,
        bind, lift, get, AddressBook_find. cbn [item0].
      now rewrite dict_get_set_same.
  - intros N.
    assert (B : Birthday_init d = Raise (ValueError birthday_message)).
    { unfold Birthday_init. unfold Birthday_to_datetime in N.
      destruct (datetime.strptime_dmY d) as [dt|e] eqn:P;
        [now destruct (N dt)|].
      now destruct (strptime_raises _ _ P) as [msg ->]. }
    unfold add_birthday, input_error, add_birthday_wrapped, try_except,
      bind, lift, get, AddressBook_find. cbn. rewrite G.
    unfold on_record. rewrite G.
    unfold Record_add_birthday, bind, lift. rewrite B.
    now rewrite (dict_set_same _ _ _ G).
  - intros N. unfold show_birthday, input_error, show_birthday_wrapped,
      try_except, bind, lift, get, AddressBook_find. cbn [item0].
    now rewrite G, N.
Qed.

Lemma birthday_commands_witness :
  add_birthday ["alice"; "1.3.1990"]
    [("alice", mkRecord "alice" [] (Some "17.03.1990"))]
  = (Ok "Birthday added.",
     dict_set "alice"
       (set_birthday (mkRecord "alice" [] (Some "17.03.1990"))
          (Some "1.3.1990"))
       [("alice", mkRecord "alice" [] (Some "17.03.1990"))]).
Proof.
  apply (proj1 (birthday_commands
                  [("alice", mkRecord "alice" [] (Some "17.03.1990"))]
                  "alice" "1.3.1990"
                  (mkRecord "alice" [] (Some "17.03.1990")) eq_refl)
           (datetime.mkdate 1990 3 1)).
  reflexivity.
Defined.

(** ** [add] and [phone] *)

Lemma dict_set_set key v v' (book : AddressBook) :
  dict_set key v' (dict_set key v book) = dict_set key v' book.
Proof.
  induction book as [|[k w] book IH]; simpl.
  - now rewrite String.eqb_refl.
  - destruct (k =? key)%string eqn:K; simpl; rewrite K; congruence.
Qed.

(** X15: [add] with a valid phone creates the contact at the end of the
    book when the name is new, and appends the phone to the contact's
    phones when the contact does not hold it yet; [phone] then lists it
    last. *)
Theorem add_then_phone (book : AddressBook) (nm p : string) :
  Phone_init p = Ok p ->
  (AddressBook_find nm book = None ->
   add_contact [nm; p] book
   = (Ok "Contact added.", (book ++ [(nm, mkRecord nm [p] None)])%list)
   /\ show_phone [nm] (book ++ [(nm, mkRecord nm [p] None)])%list
      = (Ok p, (book ++ [(nm, mkRecord nm [p] None)])%list))
  /\ (forall r, AddressBook_find nm book = Some r ->
      Record_find_phone p r = None ->
      add_contact [nm; p] book
      = (Ok "Contact added.",
         dict_set nm (set_phones r (phones r ++ [p])) book)
      /\ show_phone [nm] (dict_set nm (set_phones r (phones r ++ [p])) book)
         = (Ok (join "; " (phones r ++ [p])),
            dict_set nm (set_phones r (phones r ++ [p])) book)).
Proof.
  unfold AddressBook_find. intros V. split.
  - intros G.
    assert (E : (book ++ [(nm, mkRecord nm [p] None)])%list
                = dict_set nm (mkRecord nm [p] None) book)
      by (symmetry; now apply dict_set_fresh).
    rewrite E. split.
    + unfold add_contact, input_error, add_contact_wrapped, try_except, bind,
        lift, get, AddressBook_find, AddressBook_add_record. cbn.
      rewrite G. cbn. unfold on_record. rewrite dict_get_set_same.
      rewrite (add_phone_fresh (Record_init nm) p eq_refl V).
      now rewrite dict_set_set.
    + unfold show_phone, input_error, show_phone_wrapped, try_except, bind,
        lift, get. cbn [item0]. now rewrite dict_get_set_same.
  - intros r G F. split.
    + unfold add_contact, input_error, add_contact_wrapped, try_except, bind,
        lift, get, AddressBook_find. cbn. rewrite G. cbn.
      unfold on_record. rewrite G.
      now rewrite (add_phone_fresh r p F V).
    + unfold show_phone, input_error, show_phone_wrapped, try_except, bind,
        lift, get. cbn [item0]. now rewrite dict_get_set_same.
Qed.

Lemma add_then_phone_witness :
  add_contact ["alice"; "1234567890"] []
  = (Ok "Contact added.",
     ([] ++ [("alice", mkRecord "alice" ["1234567890"] None)])%list).
Proof.
  apply (proj1 (add_then_phone [] "alice" "1234567890" eq_refl)).
  reflexivity.
Defined.

(** ** [change] *)

Lemma find_phone_In r p : In p (phones r) -> Record_find_phone p r = Some p.
Proof.
  intros I. destruct (Record_find_phone p r) as [q|] eqn:F.
  - apply find_phone_Some in F as [-> _]. reflexivity.
  - apply find_phone_None in F. contradiction.
Qed.

Lemma list_remove_app_fresh old new l :
  In old l -> list_remove old (l ++ [new]) = (list_remove old l ++ [new])%list.
Proof.
  induction l as [|y l IH]; simpl; [contradiction|].
  destruct (String.eqb_spec y old) as [->|N]; [reflexivity|].
  intros [E|I]; [contradiction|]. now rewrite IH.
Qed.

Lemma list_remove_length old l :
  In old l -> S (List.length (list_remove old l)) = List.length l.
Proof.
  induction l as [|y l IH]; simpl; [contradiction|].
  destruct (String.eqb_spec y old) as [->|N]; [reflexivity|].
  intros [E|I]; [contradiction|]. simpl. now rewrite IH.
Qed.

(** X16: [change] on a contact holding [old], with a valid [new] it does
    not hold, removes [old] and puts [new] at the end of the phones (not
    in the place of [old]); the number of phones is unchanged.  With an
    invalid [new] it answers with the decorator's reply for ValueError
    and changes nothing; with an [old] the contact does not hold it gives
    the same reply but has added [new]; on an unknown name it answers
    "Contact not found.". *)
Theorem change_command (book : AddressBook) (nm old new : string) :
  (forall r, AddressBook_find nm book = Some r ->
     Phone_init new = Ok new -> Record_find_phone new r = None ->
     In old (phones r) ->
     change_contact [nm; old; new] book
     = (Ok "Phone updated.",
        dict_set nm (set_phones r (list_remove old (phones r) ++ [new])) book)
     /\ List.length (list_remove old (phones r) ++ [new])
        = List.length (phones r))
  /\ (forall r, AddressBook_find nm book = Some r ->
      (forall v, Phone_init new <> Ok v) -> Record_find_phone new r = None ->
      change_contact [nm; old; new] book
      = (Ok "Give me name and phone please.", book))
  /\ (forall r, AddressBook_find nm book = Some r ->
      Phone_init new = Ok new -> Record_find_phone new r = None ->
      Record_find_phone old r = None -> old <> new ->
      change_contact [nm; old; new] book
      = (Ok "Give me name and phone please.",
         dict_set nm (set_phones r (phones r ++ [new])) book))
  /\ (AddressBook_find nm book = None ->
      change_contact [nm; old; new] book = (Ok "Contact not found.", book)).
Proof.
  unfold AddressBook_find. split; [|split; [|split]].
  - intros r G V F I. split.
    + unfold change_contact, input_error, change_contact_wrapped, try_except,
        bind, lift, get, AddressBook_find. cbn. rewrite G.
      unfold on_record. rewrite G.
      unfold Record_edit_phone. unfold bind at 1, get. rewrite F.
      rewrite (bind_ok _ _ _ _ _ (add_phone_fresh r new F V)).
      unfold Record_remove_phone, bind, get, put.
      assert (Fo : Record_find_phone old (set_phones r (phones r ++ [new]))
                   = Some old).
      { apply find_phone_In. cbn. apply in_or_app. now left. }
      rewrite Fo. cbn [phones set_phones name birthday].
      now rewrite (list_remove_app_fresh _ _ _ I).
    + rewrite length_app. cbn. rewrite <- (list_remove_length old _ I). lia.
  - intros r G V F.
    unfold change_contact, input_error, change_contact_wrapped, try_except,
      bind, lift, get, AddressBook_find. cbn. rewrite G.
    unfold on_record. rewrite G.
    unfold Record_edit_phone. unfold bind at 1, get. rewrite F.
    unfold Record_add_phone, bind, get, lift. rewrite F.
    rewrite (Phone_init_invalid _ V).
    now rewrite (dict_set_same _ _ _ G).
  - intros r G V F Fo N.
    unfold change_contact, input_error, change_contact_wrapped, try_except,
      bind, lift, get, AddressBook_find. cbn. rewrite G.
    unfold on_record. rewrite G.
    unfold Record_edit_phone. unfold bind at 1, get. rewrite F.
    rewrite (bind_ok _ _ _ _ _ (add_phone_fresh r new F V)).
    rewrite remove_phone_absent; [reflexivity|].
    now rewrite find_phone_other.
  - intros G.
    unfold change_contact, input_error, change_contact_wrapped, try_except,
      bind, lift, get, AddressBook_find. cbn. now rewrite G.
Qed.

Lemma change_command_witness :
  change_contact ["alice"; "1111111111"; "3333333333"]
    [("alice", mkRecord "alice" ["1111111111"; "2222222222"] None)]
  = (Ok "Phone updated.",
     dict_set "alice"
       (set_phones (mkRecord "alice" ["1111111111"; "2222222222"] None)
          (list_remove "1111111111" ["1111111111"; "2222222222"]
           ++ ["3333333333"]))
       [("alice", mkRecord "alice" ["1111111111"; "2222222222"] None)]).
Proof.
  apply (proj1 (change_command _ "alice" "1111111111" "3333333333")
           (mkRecord "alice" ["1111111111"; "2222222222"] None));
    try reflexivity.
  simpl. tauto.
Defined.

(** ** [remove-phone] *)

(** X17: [remove-phone] of a phone the contact holds, when other phones
    remain, removes it, keeps the contact at its place in the book and
    says so; on an unknown name it answers "Contact not found." and
    changes nothing. *)
Theorem remove_phone_keeps_contact (book : AddressBook) (nm p : string) :
  (forall r, dict_get nm book = Some r ->
     In p (phones r) -> list_remove p (phones r) <> [] ->
     let r' := set_phones r (list_remove p (phones r)) in
     remove_phone_command [nm; p] book
     = (Ok ("Phone '" ++ p ++ "' removed from contact '" ++ nm ++ "'."),
        dict_set nm r' book)
     /\ AddressBook_find nm (dict_set nm r' book) = Some r'
     /\ map fst (dict_set nm r' book) = map fst book)
  /\ (dict_get nm book = None ->
      remove_phone_command [nm; p] book = (Ok "Contact not found.", book)).
Proof.
  split.
  - intros r G I N r'. repeat split.
    + unfold remove_phone_command, input_error, remove_phone_command_wrapped,
        try_except, bind, lift, get. cbn. rewrite G.
      unfold on_record. rewrite G.
      unfold Record_remove_phone, bind, get, put.
      rewrite (find_phone_In _ _ I). rewrite dict_get_set_same.
      cbn [option_map phones set_phones]. fold r'.
      destruct (list_remove p (phones r)); [contradiction | reflexivity].
    + apply dict_get_set_same.
    + eapply dict_set_keys, G.
  - intros G.
    unfold remove_phone_command, input_error, remove_phone_command_wrapped,
      try_except, bind, lift, get. cbn. now rewrite G.
Qed.

Lemma remove_phone_keeps_contact_witness :
  remove_phone_command ["alice"; "1111111111"]
    [("alice", mkRecord "alice" ["1111111111"; "2222222222"] None)]
  = (Ok ("Phone '" ++ "1111111111" ++ "' removed from contact '" ++ "alice"
         ++ "'."),
     dict_set "alice"
       (set_phones (mkRecord "alice" ["1111111111"; "2222222222"] None)
          (list_remove "1111111111" ["1111111111"; "2222222222"]))
       [("alice", mkRecord "alice" ["1111111111"; "2222222222"] None)]).
Proof.
  apply (proj1 (remove_phone_keeps_contact _ "alice" "1111111111")
           (mkRecord "alice" ["1111111111"; "2222222222"] None)).
  - reflexivity.
  - simpl. tauto.
  - discriminate.
Defined.

(** ** Phones of a record *)

Lemma list_remove_last p l : ~ In p l -> list_remove p (l ++ [p]) = l.
Proof.
  induction l as [|y l IH]; simpl.
  - now rewrite String.eqb_refl.
  - intros N. destruct (String.eqb_spec y p) as [->|D]; [tauto|].
    rewrite IH; tauto.
Qed.

Lemma list_remove_In_other p q l :
  q <> p -> In q l -> In q (list_remove p l).
Proof.
  intros N. induction l as [|y l IH]; simpl; [tauto|].
  destruct (String.eqb_spec y p) as [->|D]; simpl.
  - intros [E|I]; [congruence | assumption].
  - intros [E|I]; [now left | right; auto].
Qed.

Lemma list_remove_gone p l : NoDup l -> ~ In p (list_remove p l).
Proof.
  induction 1 as [|y l N D IH]; simpl; [tauto|].
  destruct (String.eqb_spec y p) as [->|E]; [assumption|].
  simpl. tauto.
Qed.

(** X18: adding a valid phone the record does not hold and removing it
    again gives the record back as it was. *)
Theorem add_then_remove_phone (r : record) (p : string) :
  Phone_init p = Ok p ->
  Record_find_phone p r = None ->
  bind (Record_add_phone p) (fun _ => Record_remove_phone p) r = (Ok tt, r).
Proof.
  intros V F.
  rewrite (bind_ok _ _ _ _ _ (add_phone_fresh r p F V)).
  unfold Record_remove_phone, bind, get, put.
  rewrite (find_phone_appended r p F). cbn [phones set_phones name birthday].
  apply find_phone_None in F. rewrite (list_remove_last _ _ F).
  now destruct r.
Qed.

Lemma add_then_remove_phone_witness :
  bind (Record_add_phone "1234567890")
    (fun _ => Record_remove_phone "1234567890")
    (mkRecord "alice" ["0987654321"] None)
  = (Ok tt, mkRecord "alice" ["0987654321"] None).
Proof.
  apply (add_then_remove_phone (mkRecord "alice" ["0987654321"] None)
           "1234567890"); reflexivity.
Defined.

(** X19: on a well-formed record, [remove_phone] of a phone it holds
    succeeds; the phone is gone, the others stay, and the name and the
    birthday are untouched. *)
Theorem remove_phone_removes (r : record) (p : string) :
  record_ok r -> In p (phones r) ->
  exists r',
    Record_remove_phone p r = (Ok tt, r')
    /\ ~ In p (phones r')
    /\ (forall q, q <> p -> (In q (phones r') <-> In q (phones r)))
    /\ S (List.length (phones r')) = List.length (phones r)
    /\ name r' = name r /\ birthday r' = birthday r.
Proof.
  intros (_ & D & _) I. exists (set_phones r (list_remove p (phones r))).
  repeat split; cbn [phones set_phones].
  - unfold Record_remove_phone, bind, get, put.
    now rewrite (find_phone_In _ _ I).
  - now apply list_remove_gone.
  - apply list_remove_In.
  - now apply list_remove_In_other.
  - now apply list_remove_length.
Qed.

Lemma remove_phone_removes_witness :
  exists r',
    Record_remove_phone "1111111111"
      (mkRecord "alice" ["1111111111"; "2222222222"] None) = (Ok tt, r')
    /\ ~ In "1111111111" (phones r').
Proof.
  destruct (remove_phone_removes
              (mkRecord "alice" ["1111111111"; "2222222222"] None)
              "1111111111") as (r' & E & N & _).
  - repeat split; simpl; repeat constructor; simpl; intuition discriminate.
  - simpl. tauto.
  - exists r'. split; assumption.
Defined.

(** ** Commands that leave the book alone *)

(** X10: only [add], [change], [delet], [add-birthday] and
    [remove-phone] can change the book: every other command, known or
    not, leaves it as it was. *)
Theorem dispatch_reads_only today command args book :
  command <> "add" -> command <> "change" -> command <> "delet" ->
  command <> "add-birthday" -> command <> "remove-phone" ->
  snd (dispatch today command args book) = book.
Proof.
  intros N1 N2 N3 N4 N5. unfold dispatch.
  repeat match goal with
    | |- context [(command =? ?c)%string] =>
        destruct (String.eqb_spec command c); [try contradiction|]
    end;
    first [ reflexivity | apply show_phone_reads | apply show_all_reads
          | apply show_birthday_reads | apply birthdays_reads ].
Qed.

Lemma dispatch_reads_only_witness :
  snd (dispatch (datetime.mkdate 2024 6 10) "all" []
         [("alice", mkRecord "alice" ["1234567890"] None)])
  = [("alice", mkRecord "alice" ["1234567890"] None)].
Proof.
  apply (dispatch_reads_only (datetime.mkdate 2024 6 10) "all" []);
    discriminate.
Defined.

(** ** Dates from ordinals *)

Lemma month_estimate_range r (leap : bool) :
  0 <= r < 365 ->
  let month := Z.shiftr (r + 50) 5 in
  let preceding :=
    datetime.index datetime.DAYS_BEFORE_MONTH month
    + (if (month >? 2) && leap then 1 else 0) in
  if preceding >? r
  then
    1 <= month - 1 <= 12
    /\ 1 <= r - (preceding
                 - (datetime.index datetime.DAYS_IN_MONTH (month - 1)
                    + (if (month - 1 =? 2) && leap then 1 else 0))) + 1
         <= datetime.index datetime.DAYS_IN_MONTH (month - 1)
            + (if (month - 1 =? 2) && leap then 1 else 0)
  else
    1 <= month <= 12
    /\ 1 <= r - preceding + 1
         <= datetime.index datetime.DAYS_IN_MONTH month
            + (if (month =? 2) && leap then 1 else 0).
Proof.
  intros R month preceding. subst preceding.
  assert (M : 1 <= month <= 12).
  { subst month. rewrite Z.shiftr_div_pow2 by lia. change (2 ^ 5) with 32.
    Z.to_euclidean_division_equations; lia. }
  assert (E : r + 50 = 32 * month + (r + 50) mod 32 /\ 0 <= (r + 50) mod 32 < 32).
  { subst month. rewrite Z.shiftr_div_pow2 by lia. change (2 ^ 5) with 32.
    split; [apply Z.div_mod; lia | apply Z.mod_pos_bound; lia]. }
  clearbody month.
  destruct (month_cases month M)
    as [F|[F|[F|[F|[F|[F|[F|[F|[F|[F|[F|F]]]]]]]]]]]; subst month;
    cbn [Z.sub Z.add Z.opp Z.pos_sub Pos.pred_double Pos.add Pos.succ
         Z.succ_double Z.pred_double Z.double];
    eval_tables; destruct leap;
    cbn [andb Z.gtb Z.eqb Pos.eqb Z.compare Pos.compare Pos.compare_cont];
    match goal with
    | |- if ?a >? ?b then _ else _ => destruct (Z.gtb_spec a b)
    end; lia.
Qed.


Lemma real_date_intro y m d :
  1 <= y <= 9999 -> 1 <= m <= 12 -> 1 <= d <= datetime.days_in_month y m ->
  real_date y m d = true.
Proof.
  intros Hy Hm Hd. rewrite days_in_month_length in Hd by assumption.
  unfold real_date. repeat (apply andb_true_iff; split); lia.
Qed.

Lemma ord2ymd_valid n :
  1 <= n <= datetime.MAXORDINAL ->
  let '(y, m, d) := datetime.ord2ymd n in real_date y m d = true.
Proof.
  intros Hn. pose proof (ymd2ord_ord2ymd n (proj1 Hn)) as RT.
  revert RT.
  unfold datetime.ord2ymd, datetime.DI400Y, datetime.DI100Y, datetime.DI4Y,
    datetime.MAXORDINAL in *.
  cbv zeta.
  set (n0 := n - 1).
  set (q := n0 / 146097). set (r1 := n0 mod 146097).
  set (n100 := r1 / 36524). set (r2 := r1 mod 36524).
  set (n4 := r2 / 1461). set (r3 := r2 mod 1461).
  set (n1 := r3 / 365). set (r4 := r3 mod 365).
  assert (F1 : n0 = 146097 * q + r1 /\ 0 <= r1 < 146097)
    by (split; [apply Z.div_mod; lia | apply Z.mod_pos_bound; lia]).
  assert (F2 : r1 = 36524 * n100 + r2 /\ 0 <= r2 < 36524)
    by (split; [apply Z.div_mod; lia | apply Z.mod_pos_bound; lia]).
  assert (F3 : r2 = 1461 * n4 + r3 /\ 0 <= r3 < 1461)
    by (split; [apply Z.div_mod; lia | apply Z.mod_pos_bound; lia]).
  assert (F4 : r3 = 365 * n1 + r4 /\ 0 <= r4 < 365)
    by (split; [apply Z.div_mod; lia | apply Z.mod_pos_bound; lia]).
  assert (Q : 0 <= q) by (apply Z.div_pos; lia).
  clearbody q r1 n100 r2 n4 r3 n1 r4.
  assert (B100 : 0 <= n100 <= 4) by lia.
  assert (B4 : 0 <= n4 <= 24) by lia.
  assert (B1 : 0 <= n1 <= 4) by lia.
  set (year := q * 400 + 1 + (n100 * 100 + n4 * 4 + n1)).
  set (leapyear := (n1 =? 3) && (negb (n4 =? 24) || (n100 =? 3))).
  assert (Ymax : forall y, 1 <= y -> datetime.days_before_year y < n ->
                           y <= 9999).
  { intros y Y1 D. destruct (Z_le_gt_dec y 9999) as [L|G]; [exact L|].
    pose proof (days_before_year_mono 10000 y ltac:(lia)) as Mo.
    change (datetime.days_before_year 10000) with 3652059 in Mo. lia. }
  destruct ((n1 =? 4) || (n100 =? 4)) eqn:Special.
  - intros RT. unfold datetime.ymd2ord, datetime.days_before_month in RT.
    apply real_date_intro.
    + split; [apply orb_true_iff in Special as [S|S]; apply Z.eqb_eq in S;
              subst year; lia|].
      apply Ymax.
      * apply orb_true_iff in Special as [S|S]; apply Z.eqb_eq in S;
          subst year; lia.
      * revert RT. eval_tables. generalize (datetime.days_before_year (year - 1)).
        destruct (datetime.is_leap (year - 1)); cbn; intros; lia.
    + lia.
    + unfold datetime.days_in_month. change (12 =? 2) with false.
      cbn [andb]. eval_tables. lia.
  - apply orb_false_iff in Special as [S1 S100].
    apply Z.eqb_neq in S1. apply Z.eqb_neq in S100.
    assert (Hleap : leapyear = datetime.is_leap year).
    { unfold leapyear, datetime.is_leap, year.
      destruct (Z.eqb_spec n1 3), (Z.eqb_spec n4 24), (Z.eqb_spec n100 3),
        (Z.eqb_spec ((q * 400 + 1 + (n100 * 100 + n4 * 4 + n1)) mod 4) 0),
        (Z.eqb_spec ((q * 400 + 1 + (n100 * 100 + n4 * 4 + n1)) mod 100) 0),
        (Z.eqb_spec ((q * 400 + 1 + (n100 * 100 + n4 * 4 + n1)) mod 400) 0);
        cbn [andb orb negb]; try reflexivity; exfalso;
        Z.to_euclidean_division_equations; lia. }
    assert (Hyear : datetime.days_before_year year = n0 - r4).
    { unfold datetime.days_before_year, year. subst n0.
      Z.to_euclidean_division_equations; lia. }
    assert (Y : 1 <= year <= 9999).
    { split; [subst year; lia|]. apply Ymax; [subst year; lia|].
      rewrite Hyear. subst n0. lia. }
    pose proof (month_estimate_range r4 leapyear (proj2 F4)) as Est.
    cbv zeta in Est. intros _.
    destruct (_ >? r4) eqn:G; destruct Est as [Em Ed];
      (apply real_date_intro; [exact Y | exact Em |]);
      unfold datetime.days_in_month; rewrite <- Hleap;
      match goal with
      | |- context [if (?m =? 2) && ?l then 29 else _] =>
          destruct ((m =? 2) && l) eqn:C
      end; try lia.
    + apply andb_true_iff in C as [C _]. apply Z.eqb_eq in C.
      rewrite C in *. revert Ed. eval_tables. lia.
    + apply andb_true_iff in C as [C _]. apply Z.eqb_eq in C.
      rewrite C in *. revert Ed. eval_tables. lia.
Qed.

Lemma fromordinal_valid n :
  1 <= n <= datetime.MAXORDINAL -> valid (datetime.fromordinal n).
Proof.
  intros H. pose proof (ord2ymd_valid n H) as V.
  unfold valid, datetime.fromordinal.
  destruct (datetime.ord2ymd n) as [[y m] d]. exact V.
Qed.

(** ** Formatted dates read back *)

Lemma digit_char_decimal a :
  0 <= a <= 9 ->
  decimal_digit (datetime.digit_char a) = true
  /\ digit_value (datetime.digit_char a) = a.
Proof.
  intros R.
  assert (C : a = 0 \/ a = 1 \/ a = 2 \/ a = 3 \/ a = 4 \/ a = 5 \/ a = 6
              \/ a = 7 \/ a = 8 \/ a = 9) by lia.
  decompose [or] C; subst; split; reflexivity.
Qed.

Lemma two_digits_field n :
  0 <= n <= 99 ->
  short_field (datetime.two_digits n) = Some n
  /\ day_field (datetime.two_digits n) = Some n.
Proof.
  intros R. unfold datetime.two_digits, day_field.
  destruct (digit_char_decimal (n / 10 mod 10)) as [A1 A2];
    [Z.to_euclidean_division_equations; lia|].
  destruct (digit_char_decimal (n mod 10)) as [B1 B2];
    [Z.to_euclidean_division_equations; lia|].
  rewrite (decimal_not_blank _ A1).
  unfold short_field, number. cbn [String.length Nat.leb number_from].
  rewrite A1, B1, A2, B2.
  split; f_equal; Z.to_euclidean_division_equations; lia.
Qed.

Lemma four_digits_field n :
  0 <= n <= 9999 -> year_field (datetime.four_digits n) = Some n.
Proof.
  intros R. unfold datetime.four_digits, datetime.two_digits, year_field, number.
  cbn [String.length Nat.eqb number_from].
  destruct (digit_char_decimal (n / 1000 mod 10)) as [A1 A2];
    [Z.to_euclidean_division_equations; lia|].
  destruct (digit_char_decimal (n / 100 mod 10)) as [B1 B2];
    [Z.to_euclidean_division_equations; lia|].
  destruct (digit_char_decimal (n / 10 mod 10)) as [C1 C2];
    [Z.to_euclidean_division_equations; lia|].
  destruct (digit_char_decimal (n mod 10)) as [D1 D2];
    [Z.to_euclidean_division_equations; lia|].
  rewrite A1, B1, C1, D1, A2, B2, C2, D2.
  f_equal. Z.to_euclidean_division_equations; lia.
Qed.

(** What [strftime] writes for a date, [Birthday] reads as that date. *)
Lemma strftime_strptime (c : datetime.date) :
  valid c ->
  Birthday_init (datetime.strftime_dmY c) = Ok (datetime.strftime_dmY c)
  /\ Birthday_to_datetime (datetime.strftime_dmY c) = Ok c.
Proof.
  intros V.
  assert (W : written_date (datetime.strftime_dmY c) (datetime.year c)
                (datetime.month c) (datetime.day c)).
  { pose proof (real_date_bounds _ _ _ V) as (Hy & Hm & Hd).
    assert (month_length (datetime.year c) (datetime.month c) <= 31)
      by (unfold month_length; repeat destruct_match_step; lia).
    exists (datetime.two_digits (datetime.day c)),
      (datetime.two_digits (datetime.month c)),
      (datetime.four_digits (datetime.year c)).
    repeat split.
    - apply two_digits_field. lia.
    - apply two_digits_field. lia.
    - apply four_digits_field. lia.
    - exact V. }
  split.
  - eapply Birthday_init_written, W.
  - unfold Birthday_to_datetime. rewrite (strptime_complete _ _ _ _ W).
    now destruct c.
Qed.

(** X20: the text [get_upcoming_birthdays] writes for a date of four-digit
    year is accepted by [Birthday], and [to_datetime] reads it as that
    date. *)
Theorem strftime_read_back (c : datetime.date) :
  valid c -> 1000 <= datetime.year c ->
  Birthday_init (datetime.strftime_dmY c) = Ok (datetime.strftime_dmY c)
  /\ Birthday_to_datetime (datetime.strftime_dmY c) = Ok c.
Proof. intros V _. now apply strftime_strptime. Qed.

Lemma strftime_read_back_witness :
  Birthday_to_datetime (datetime.strftime_dmY (datetime.mkdate 2024 2 29))
  = Ok (datetime.mkdate 2024 2 29).
Proof.
  apply (strftime_read_back (datetime.mkdate 2024 2 29));
    [reflexivity | cbn; lia].
Defined.

(** ** What the query emits *)

Lemma congratulation_facts p :
  valid p ->
  valid (congratulation p)
  /\ day_of_week (congratulation p) <> Saturday
  /\ day_of_week (congratulation p) <> Sunday
  /\ 0 <= datetime.toordinal (congratulation p) - datetime.toordinal p <= 2.
Proof.
  intros V. pose proof (congratulation_Monday p V) as [Sat Sun].
  pose proof (weekday_day_of_week p V) as (WSat & WSun & _).
  pose proof (toordinal_bounds p V) as B.
  destruct (day_of_week p) eqn:D;
    try (unfold congratulation; rewrite D; repeat split;
         try assumption; try congruence; lia).
  - destruct (Sat eq_refl) as [M O]. rewrite M, O. repeat split;
      try discriminate; try lia.
    unfold congratulation. rewrite D. apply fromordinal_valid.
    pose proof (weekend_shift_in_range p V) as R.
    rewrite (proj2 WSat eq_refl) in R. lia.
  - destruct (Sun eq_refl) as [M O]. rewrite M, O. repeat split;
      try discriminate; try lia.
    unfold congratulation. rewrite D. apply fromordinal_valid.
    pose proof (weekend_shift_in_range p V) as R.
    rewrite (proj2 WSun eq_refl) in R. lia.
Qed.

Lemma projected_valid today r b bday :
  projectable today r = true ->
  birthday r = Some b -> Birthday_to_datetime b = Ok bday ->
  valid (projected today bday).
Proof.
  unfold projectable, projected. intros P B E. rewrite B, E in P.
  apply andb_true_iff in P as [P1 P2]. unfold exists_in_year in *.
  destruct (before _ today); assumption.
Qed.

Lemma get_upcoming_Ok today book out :
  valid today ->
  AddressBook_get_upcoming_birthdays today book = Ok out ->
  forallb (projectable today) (values book) = true
  /\ out = upcoming_spec today book.
Proof.
  intros V E. unfold AddressBook_get_upcoming_birthdays in E.
  destruct (forallb (projectable today) (values book)) eqn:P.
  - rewrite (for_each_projectable today V _ [] P) in E.
    injection E as <-. auto.
  - destruct (for_each_not_projectable today V _ [] P) as (msg & st' & R).
    rewrite R in E. discriminate.
Qed.

(** X21: when the query returns, with a reference date of four-digit
    year, every entry carries the name of a record of the book and a date
    text that reads back as a date which is neither a Saturday nor a
    Sunday and lies 0 to 9 days after the reference date; there is at
    most one entry per record. *)
Theorem upcoming_entries (today : datetime.date) (book : AddressBook)
    (out : list (string * string)) :
  valid today -> 1000 <= datetime.year today ->
  AddressBook_get_upcoming_birthdays today book = Ok out ->
  Forall (fun entry =>
            exists r c,
              In r (values book) /\ fst entry = name r
              /\ Birthday_to_datetime (snd entry) = Ok c
              /\ day_of_week c <> Saturday /\ day_of_week c <> Sunday
              /\ 0 <= datetime.toordinal c - datetime.toordinal today <= 9)
    out
  /\ (List.length out <= List.length book)%nat.
Proof.
  intros V _ E. apply get_upcoming_Ok in E as [P ->]; [|exact V].
  unfold upcoming_spec. split.
  - apply Forall_forall. intros entry I.
    apply in_flat_map in I as (r & Ir & I).
    rewrite forallb_forall in P. specialize (P r Ir).
    unfold upcoming_of in I.
    destruct (birthday r) as [b|] eqn:B; [|contradiction].
    destruct (Birthday_to_datetime b) as [bday|e] eqn:Pb; [|contradiction].
    pose proof (projected_valid today r b bday P B Pb) as Vp.
    cbv zeta in I.
    destruct (_ && _) eqn:W; [|contradiction].
    destruct I as [<-|[]].
    apply andb_true_iff in W as [W1 W2].
    apply Z.leb_le in W1, W2.
    destruct (congratulation_facts _ Vp) as (Vc & NSat & NSun & Sh).
    exists r, (congratulation (projected today bday)). cbn [fst snd].
    repeat split; auto; try lia.
    apply (strftime_strptime _ Vc).
  - unfold values. rewrite <- (length_map snd book).
    generalize (map snd book). intros rs. clear.
    induction rs as [|r rs IH]; simpl; [lia|].
    rewrite length_app.
    assert (List.length (upcoming_of today r) <= 1)%nat.
    { unfold upcoming_of. destruct (birthday r); [|simpl; lia].
      destruct (Birthday_to_datetime s); [|simpl; lia].
      cbv zeta. destruct (_ && _); simpl; lia. }
    lia.
Qed.

Lemma upcoming_entries_witness :
  Forall (fun entry =>
            exists r c,
              In r (values [("alice", mkRecord "alice" [] (Some "15.06.1990"))])
              /\ fst entry = name r
              /\ Birthday_to_datetime (snd entry) = Ok c
              /\ day_of_week c <> Saturday /\ day_of_week c <> Sunday
              /\ 0 <= datetime.toordinal c
                      - datetime.toordinal (datetime.mkdate 2024 6 10) <= 9)
    [("alice", "17.06.2024")].
Proof.
  apply (upcoming_entries (datetime.mkdate 2024 6 10)
           [("alice", mkRecord "alice" [] (Some "15.06.1990"))]
           [("alice", "17.06.2024")]).
  - reflexivity.
  - cbn. lia.
  - reflexivity.
Defined.

(** ** [birthdays] on a well-formed book *)

Lemma exists_in_other_year y bday :
  valid bday -> 1 <= y <= 9999 ->
  ~ (datetime.month bday = 2 /\ datetime.day bday = 29) ->
  exists_in_year y bday = true.
Proof.
  unfold valid, exists_in_year. intros V Hy N.
  apply real_date_bounds in V as (_ & Hm & Hd).
  unfold real_date. repeat (apply andb_true_iff; split); try lia.
  apply Z.leb_le.
  destruct (month_cases _ Hm) as [E|[E|[E|[E|[E|[E|[E|[E|[E|[E|[E|E]]]]]]]]]]];
    rewrite E in *; unfold month_length in *;
    try lia.
  destruct (leap_year y), (leap_year (datetime.year bday)); lia.
Qed.

(** X22: on a well-formed book without a birthday on 29 February, and
    before the year 9999, the query returns and [birthdays] answers with
    the list of congratulations or with "No upcoming birthdays this
    week.", never with an error reply; the book is unchanged. *)
Theorem birthdays_without_feb29 (today : datetime.date) (book : AddressBook)
    (args : list string) :
  book_ok book -> valid today -> datetime.year today < 9999 ->
  (forall r b bday,
      In r (values book) -> birthday r = Some b ->
      Birthday_to_datetime b = Ok bday ->
      ~ (datetime.month bday = 2 /\ datetime.day bday = 29)) ->
  AddressBook_get_upcoming_birthdays today book
  = Ok (upcoming_spec today book)
  /\ birthdays today args book
     = (Ok match upcoming_spec today book with
           | [] => "No upcoming birthdays this week."
           | out => join newline
                      (map (fun item => fst item ++ " - " ++ snd item) out)
           end, book).
Proof.
  intros [_ F] V Y N.
  assert (P : forallb (projectable today) (values book) = true).
  { apply forallb_forall. intros r I.
    assert (R : record_ok r).
    { unfold values in I. apply in_map_iff in I as [[k r'] [E I]].
      simpl in E. subst r'. rewrite Forall_forall in F.
      exact (proj2 (F _ I)). }
    destruct R as (_ & _ & Rb). unfold projectable.
    destruct (birthday r) as [b|] eqn:B; [|reflexivity].
    destruct Rb as [bday Pb]. rewrite Pb.
    assert (Vb : valid bday).
    { unfold Birthday_to_datetime in Pb.
      apply strptime_sound in Pb as (dd & mm & yyyy & _ & _ & _ & _ & R).
      exact R. }
    pose proof (real_date_bounds _ _ _ V) as (Hy & _).
    specialize (N r b bday I B Pb).
    rewrite !exists_in_other_year by (auto; lia).
    now destruct (before _ today). }
  assert (E : AddressBook_get_upcoming_birthdays today book
              = Ok (upcoming_spec today book)).
  { unfold AddressBook_get_upcoming_birthdays, upcoming_spec.
    now rewrite (for_each_projectable today V _ [] P). }
  split; [exact E|].
  unfold birthdays, input_error, try_except, birthdays_wrapped, bind, get,
    lift. rewrite E. now destruct (upcoming_spec today book).
Qed.

Lemma birthdays_without_feb29_witness :
  AddressBook_get_upcoming_birthdays (datetime.mkdate 2024 6 10)
    [("alice", mkRecord "alice" [] (Some "15.06.1990"))]
  = Ok (upcoming_spec (datetime.mkdate 2024 6 10)
          [("alice", mkRecord "alice" [] (Some "15.06.1990"))]).
Proof.
  apply (birthdays_without_feb29 (datetime.mkdate 2024 6 10)
           [("alice", mkRecord "alice" [] (Some "15.06.1990"))] []).
  - split.
    + repeat constructor. simpl. tauto.
    + repeat constructor; simpl. eexists. reflexivity.
  - reflexivity.
  - cbn. lia.
  - intros r b bday [<-|[]] B P. cbn in B. injection B as <-.
    vm_compute in P. injection P as <-. cbn. intros [H _]. discriminate.
Defined.

